(** * The [/translate] handler of the German flashcard backend (src/index.js)

    A shallow embedding of the single request handler of the repository and
    the properties its specification states about it.

    The handler is JavaScript: it reads a JSON request body, talks to one
    external HTTP service through [fetch], and answers with
    [res.status(code).json(body)].  The embedding keeps that shape:

    - JavaScript strings are sequences of UTF-16 code units;
    - the values the handler can see are the values JSON produces, plus
      [undefined] (what reading a missing property gives);
    - exceptions are an explicit completion ([Normal] or [Throw]), and the
      handler's effects ([console.log], [console.error], [fetch]) are
      recorded in a trace that is threaded through the computation;
    - what the language runtime and the network provide ([JSON.parse], the
      printing of numbers, the reply of the external service, the process
      environment) are parameters of the model, so every theorem holds
      whatever they do. *)

From Stdlib Require Import List NArith ZArith Bool String Ascii Lia DecimalString.
Import ListNotations.

Local Open Scope N_scope.
Set Warnings "-register-all".

(* ------------------------------------------------------------------ *)
(** ** JavaScript strings *)

(** A string is its sequence of UTF-16 code units. *)
Definition jsstring : Type := list N.

(** [js "abc"]: the JavaScript string written with the given ASCII
    characters (one code unit per character). *)
Fixpoint js (s : string) : jsstring :=
  match s with
  | EmptyString => []
  | String c r => N_of_ascii c :: js r
  end.

Fixpoint jseqb (a b : jsstring) : bool :=
  match a, b with
  | [], [] => true
  | x :: a', y :: b' => (x =? y) && jseqb a' b'
  | _, _ => false
  end.

(** The code units [String.prototype.trim] removes: ECMAScript's WhiteSpace
    (TAB, VT, FF, SP, NBSP, ZWNBSP and the other space separators) and
    LineTerminator (LF, CR, LS, PS).  All of them are in the basic plane, so
    the test is on one code unit. *)
Definition is_ws (c : N) : bool :=
  (c =? 9) || (c =? 10) || (c =? 11) || (c =? 12) || (c =? 13) || (c =? 32)
  || (c =? 160) || (c =? 5760)
  || ((8192 <=? c) && (c <=? 8202))
  || (c =? 8232) || (c =? 8233) || (c =? 8239) || (c =? 8287)
  || (c =? 12288) || (c =? 65279).

Fixpoint trim_start (s : jsstring) : jsstring :=
  match s with
  | [] => []
  | c :: r => if is_ws c then trim_start r else s
  end.

Definition trim_end (s : jsstring) : jsstring := rev (trim_start (rev s)).

(** [s.trim()] *)
Definition trim (s : jsstring) : jsstring := trim_end (trim_start s).

(** A string made of white space only (the empty string included). *)
Definition whitespace_only (s : jsstring) : Prop := Forall (fun c => is_ws c = true) s.

(** [sep]-separated concatenation, as [Array.prototype.join] builds it. *)
Fixpoint join (sep : jsstring) (l : list jsstring) : jsstring :=
  match l with
  | [] => []
  | [x] => x
  | x :: r => x ++ sep ++ join sep r
  end.

(* ------------------------------------------------------------------ *)
(** ** Numbers *)

(** JavaScript numbers are IEEE doubles.  The handler never computes with
    them: it tests them for truthiness, prints them inside a string, and
    copies the integer HTTP status of the external reply into its answer.
    Those three operations are the interface the model asks for. *)
Class JsNumber : Type := {
  number : Type;
  (** the number with the given integer value (HTTP status codes) *)
  num_of_Z : Z -> number;
  (** [+0], [-0] and [NaN] are falsy, every other number is truthy *)
  num_is_falsy : number -> bool;
  (** Number::toString, radix 10 *)
  num_toString : number -> jsstring
}.

(* ------------------------------------------------------------------ *)
(** ** Values, exceptions, completions *)

Inductive exn : Type :=
| TypeError     (* reading a property of null/undefined, calling a non-function,
                   converting an object that has no usable toString *)
| SyntaxError   (* JSON.parse / Response.json() on text that is not JSON *)
| FetchError    (* the promise returned by fetch is rejected *)
| RangeError.   (* a status code that express refuses to send *)

Inductive completion (A : Type) : Type :=
| Normal (a : A)
| Throw (e : exn).
Arguments Normal {A} a.
Arguments Throw {A} e.

Section Values.
Context {Num : JsNumber}.

(** The values that reach the handler: what [JSON.parse] builds, and
    [undefined].  An object is the list of its own properties; reading a key
    takes its first entry. *)
Inductive JsVal : Type :=
| JUndefined
| JNull
| JBool (b : bool)
| JNum (n : number)
| JStr (s : jsstring)
| JArr (elems : list JsVal)
| JObj (props : list (jsstring * JsVal)).

Fixpoint lookup (k : jsstring) (props : list (jsstring * JsVal)) : option JsVal :=
  match props with
  | [] => None
  | (k', v) :: r => if jseqb k k' then Some v else lookup k r
  end.

(** ToBoolean *)
Definition truthy (v : JsVal) : bool :=
  match v with
  | JUndefined | JNull => false
  | JBool b => b
  | JNum n => negb (num_is_falsy n)
  | JStr s => match s with [] => false | _ => true end
  | JArr _ | JObj _ => true
  end.

Definition is_nullish (v : JsVal) : bool :=
  match v with
  | JUndefined | JNull => true
  | _ => false
  end.

(** [v.k] for the property names the handler reads: [germanWord],
    [candidates], [content], [parts], [text], [englishTranslation] and
    [details].  None of them is defined on a built-in prototype, so the
    result is the own property or [undefined]; reading from [null] or
    [undefined] throws. *)
Definition get (v : JsVal) (k : jsstring) : completion JsVal :=
  match v with
  | JUndefined | JNull => Throw TypeError
  | JObj props => Normal (match lookup k props with Some x => x | None => JUndefined end)
  | _ => Normal JUndefined
  end.

(** [v[0]]: the first element of an array, the first code unit of a string,
    the property named ["0"] of an object. *)
Definition get0 (v : JsVal) : completion JsVal :=
  match v with
  | JUndefined | JNull => Throw TypeError
  | JArr elems => Normal (match elems with x :: _ => x | [] => JUndefined end)
  | JStr s => Normal (match s with c :: _ => JStr [c] | [] => JUndefined end)
  | JObj props => Normal (match lookup (js "0") props with Some x => x | None => JUndefined end)
  | _ => Normal JUndefined
  end.

(** [v?.k] and [v?.[0]]: [undefined] when [v] is null or undefined. *)
Definition get_opt (v : JsVal) (k : jsstring) : completion JsVal :=
  if is_nullish v then Normal JUndefined else get v k.

Definition get0_opt (v : JsVal) : completion JsVal :=
  if is_nullish v then Normal JUndefined else get0 v.

(** [v.trim()].  Only strings have a [trim] method; on any other value the
    property is undefined or (an own JSON property) not a function, and the
    call throws. *)
Definition call_trim (v : JsVal) : completion JsVal :=
  match v with
  | JStr s => Normal (JStr (trim s))
  | _ => Throw TypeError
  end.

(** ToString, as a template literal and [JSON.parse] apply it to their
    argument.  [None] is a TypeError: an object carrying an own [toString]
    property (never a function in JSON data) cannot be converted. *)
Fixpoint ToString (v : JsVal) : option jsstring :=
  match v with
  | JUndefined => Some (js "undefined")
  | JNull => Some (js "null")
  | JBool true => Some (js "true")
  | JBool false => Some (js "false")
  | JNum n => Some (num_toString n)
  | JStr s => Some s
  | JArr elems =>
      option_map (join (js ","))
        ((fix items (l : list JsVal) : option (list jsstring) :=
            match l with
            | [] => Some []
            | x :: r =>
                match (if is_nullish x then Some [] else ToString x), items r with
                | Some s, Some ss => Some (s :: ss)
                | _, _ => None
                end
            end) elems)
  | JObj props =>
      match lookup (js "toString") props with
      | Some _ => None
      | None => Some (js "[object Object]")
      end
  end.

End Values.

(* ------------------------------------------------------------------ *)
(** ** Effects: the console, the network, the response *)

Section Handler.
Context {Num : JsNumber}.

(** [JSON.parse] on a string: the parsed value, or [None] for a
    SyntaxError.  It belongs to the language runtime, not to the
    repository. *)
Variable JSON_parse : jsstring -> option JsVal.

(** The second argument of [fetch].  [init_body] is the payload that the
    handler sends as [JSON.stringify(payload)]. *)
Record FetchInit : Type := {
  init_method : jsstring;
  init_headers : list (jsstring * jsstring);
  init_body : JsVal
}.

(** What [fetch] resolves to: the status line and the body text of the
    reply (node-fetch v2). *)
Record ApiResponse : Type := {
  api_status : Z;
  api_text : jsstring
}.

Inductive fetch_outcome : Type :=
| Rejected
| Replied (r : ApiResponse).

(** Everything outside the handler that it reads: the process environment
    and the external service. *)
Record World : Type := {
  GEMINI_API_KEY : option jsstring;
  fetch : jsstring -> FetchInit -> fetch_outcome
}.

(** [Response.ok] of node-fetch: the status is in the range 200-299. *)
Definition api_ok (r : ApiResponse) : bool :=
  ((200 <=? api_status r) && (api_status r <? 300))%Z.

Inductive logarg : Type :=
| LVal (v : JsVal)
| LErr (e : exn).

Inductive event : Type :=
| EvLog (args : list logarg)                    (* console.log *)
| EvError (args : list logarg)                  (* console.error *)
| EvFetch (url : jsstring) (init : FetchInit).  (* a call of the external API *)

Definition is_fetch (e : event) : bool :=
  match e with EvFetch _ _ => true | _ => false end.

(** The calls of the external API that a trace contains. *)
Definition fetch_calls (tr : list event) : list event := filter is_fetch tr.

(** What the handler passes to [res.status(code).json(body)], when express
    accepts it (what express then does with the body of a 204 or 304
    answer is outside the handler). *)
Record HttpResponse : Type := {
  res_status : Z;
  res_body : JsVal
}.

(** A computation: it extends the trace of effects and completes normally
    or by an exception. *)
Definition Eff (A : Type) : Type := list event -> completion A * list event.

Definition ret {A} (a : A) : Eff A := fun tr => (Normal a, tr).

Definition bind {A B} (m : Eff A) (k : A -> Eff B) : Eff B :=
  fun tr =>
    match m tr with
    | (Normal a, tr') => k a tr'
    | (Throw e, tr') => (Throw e, tr')
    end.

Definition lift {A} (c : completion A) : Eff A := fun tr => (c, tr).

Definition emit (e : event) : Eff unit := fun tr => (Normal tt, tr ++ [e]).

(** [try { m } catch (e) { h e }] *)
Definition try_catch {A} (m : Eff A) (h : exn -> Eff A) : Eff A :=
  fun tr =>
    match m tr with
    | (Normal a, tr') => (Normal a, tr')
    | (Throw e, tr') => h e tr'
    end.

(** Runs [m] and hands its completion to the continuation; used for a
    [try] whose [catch] block returns from the handler. *)
Definition attempt {A} (m : Eff A) : Eff (completion A) :=
  fun tr => let (c, tr') := m tr in (Normal c, tr').

Notation "x <- m ;; k" := (bind m (fun x => k))
  (at level 100, m at next level, right associativity).
Notation "m ;;; k" := (bind m (fun _ => k))
  (at level 100, right associativity).

Definition console_log (args : list logarg) : Eff unit := emit (EvLog args).
Definition console_error (args : list logarg) : Eff unit := emit (EvError args).

(** [await fetch(url, init)] *)
Definition do_fetch (w : World) (url : jsstring) (init : FetchInit) : Eff ApiResponse :=
  emit (EvFetch url init) ;;;
  match fetch w url init with
  | Rejected => lift (Throw FetchError)
  | Replied r => ret r
  end.

(** [await apiResponse.json()]: node-fetch parses the body text and rejects
    when it is not JSON. *)
Definition api_json (r : ApiResponse) : Eff JsVal :=
  match JSON_parse (api_text r) with
  | Some v => ret v
  | None => lift (Throw FetchError)
  end.

(** [`${v}`] *)
Definition tostr (v : JsVal) : Eff jsstring :=
  match ToString v with
  | Some s => ret s
  | None => lift (Throw TypeError)
  end.

(** [JSON.parse(v)]: the argument is converted to a string first. *)
Definition JSON_parse_val (v : JsVal) : Eff JsVal :=
  s <- tostr v ;;
  match JSON_parse s with
  | Some r => ret r
  | None => lift (Throw SyntaxError)
  end.

(** The status codes that express sends: 100 to 999. *)
Definition valid_status (code : Z) : bool :=
  ((100 <=? code) && (code <=? 999))%Z.

(** [res.status(code).json(body)]; [res.json(body)] is [respond 200 body].
    For a code outside 100-999 the call throws a RangeError (express 5 in
    [res.status], express 4 when the head is written), inside the [try]
    block like every other statement of the handler. *)
Definition respond (code : Z) (body : JsVal) : Eff HttpResponse :=
  if valid_status code then ret {| res_status := code; res_body := body |}
  else lift (Throw RangeError).

Definition str (s : string) : JsVal := JStr (js s).

(* ------------------------------------------------------------------ *)
(** ** The handler *)

Definition systemPrompt : jsstring :=
  js "You are a specialized German-English vocabulary expert. Your task is to provide the exact English translation and the German article/gender for a given German word. If the word is a noun, you MUST include the article (der, die, or das) and the plural form in parentheses. If it is a verb, include the infinitive form and, if possible, the past participle (e.g., gehen (ging, gegangen)). Provide the response as a clean JSON object following the schema.".

Definition responseSchema : JsVal :=
  JObj [
    (js "type", str "OBJECT");
    (js "properties", JObj [
      (js "germanWord", JObj [
         (js "type", str "STRING");
         (js "description", str "The exact German word entered, including article if applicable.")]);
      (js "englishTranslation", JObj [
         (js "type", str "STRING");
         (js "description", str "The primary, most accurate English translation.")]);
      (js "details", JObj [
         (js "type", str "STRING");
         (js "description", str "German grammar details (e.g., gender, plural, verb forms). Include the plural form in parentheses for nouns.")])]);
    (js "required", JArr [str "germanWord"; str "englishTranslation"; str "details"])
  ].

Definition payload (userQuery : jsstring) : JsVal :=
  JObj [
    (js "contents", JArr [JObj [(js "parts", JArr [JObj [(js "text", JStr userQuery)]])]]);
    (js "systemInstruction", JObj [(js "parts", JArr [JObj [(js "text", JStr systemPrompt)]])]);
    (js "generationConfig", JObj [
       (js "responseMimeType", str "application/json");
       (js "responseSchema", responseSchema)])
  ].

Definition modelName : jsstring := js "gemini-2.5-flash-preview-09-2025".

Definition apiUrl (apiKey : jsstring) : jsstring :=
  js "https://generativelanguage.googleapis.com/v1beta/models/" ++ modelName
  ++ js ":generateContent?key=" ++ apiKey.

Definition fetch_init (userQuery : jsstring) : FetchInit :=
  {| init_method := js "POST";
     init_headers := [(js "Content-Type", js "application/json")];
     init_body := payload userQuery |}.

(** [process.env.GEMINI_API_KEY] *)
Definition env_key (w : World) : JsVal :=
  match GEMINI_API_KEY w with
  | Some k => JStr k
  | None => JUndefined
  end.

(** The fixed bodies of the error answers. *)
Definition error_body (msg : string) : JsVal := JObj [(js "error", str msg)].

(** [`${g}\n\n(${d})`] *)
Definition fullGerman_of (g d : jsstring) : jsstring :=
  g ++ [10; 10] ++ js "(" ++ d ++ js ")".

(** Step 5 of the handler (lines 104-112): the answer built from the parsed
    model output. *)
Definition build_response (parsedData : JsVal) : Eff HttpResponse :=
  gw <- lift (get parsedData (js "germanWord")) ;;
  g <- tostr gw ;;
  dt <- lift (get parsedData (js "details")) ;;
  d <- tostr dt ;;
  let fullGerman := fullGerman_of g d in
  fullEnglish <- lift (get parsedData (js "englishTranslation")) ;;
  respond 200 (JObj [
    (js "german", JStr fullGerman);
    (js "english", fullEnglish);
    (js "raw", parsedData)]).

(** Lines 93-112: parse the generated text; answer from the parsed value,
    or report the text that did not parse. *)
Definition parse_and_answer (jsonText : JsVal) : Eff HttpResponse :=
  parsed <- attempt (JSON_parse_val jsonText) ;;
  match parsed with
  | Throw parseError =>
      console_error [LVal (str "Error parsing JSON from Gemini:"); LErr parseError;
                     LVal (str "Raw text:"); LVal jsonText] ;;;
      respond 500 (JObj [
        (js "error", str "Failed to parse JSON from Gemini");
        (js "raw", jsonText)])
  | Normal parsedData => build_response parsedData
  end.

(** Step 4 (lines 84-91): unwrap the generated text of the reply. *)
Definition extract_and_answer (result : JsVal) : Eff HttpResponse :=
  candidates <- lift (get result (js "candidates")) ;;
  candidate <- lift (get0_opt candidates) ;;
  invalid <-
    (if negb (truthy candidate) then ret true
     else
       content <- lift (get candidate (js "content")) ;;
       parts <- lift (get_opt content (js "parts")) ;;
       part0 <- lift (get0_opt parts) ;;
       text <- lift (get_opt part0 (js "text")) ;;
       ret (negb (truthy text))) ;;
  if invalid : bool then
    console_error [LVal (str "Invalid Gemini response structure:"); LVal result] ;;;
    respond 500 (error_body "Invalid response from Gemini API")
  else
    content <- lift (get candidate (js "content")) ;;
    parts <- lift (get content (js "parts")) ;;
    part0 <- lift (get0 parts) ;;
    jsonText <- lift (get part0 (js "text")) ;;
    parse_and_answer jsonText.

(** The body of the [try] block (lines 18-112). *)
Definition translate_try (w : World) (req_body : JsVal) : Eff HttpResponse :=
  germanWord <- lift (get req_body (js "germanWord")) ;;
  missing <-
    (if negb (truthy germanWord) then ret true
     else t <- lift (call_trim germanWord) ;; ret (negb (truthy t))) ;;
  if missing : bool then
    respond 400 (error_body "germanWord is required")
  else
    console_log [LVal (str "Received word from frontend:"); LVal germanWord] ;;;
    word <- tostr germanWord ;;
    let userQuery := js "German word: " ++ word in
    let apiKey := env_key w in
    if negb (truthy apiKey) then
      console_error [LVal (str "GEMINI_API_KEY is missing in .env")] ;;;
      respond 500 (error_body "Server misconfiguration: API key missing")
    else
      key <- tostr apiKey ;;
      console_log [LVal (str "Calling Gemini API...")] ;;;
      apiResponse <- do_fetch w (apiUrl key) (fetch_init userQuery) ;;
      if negb (api_ok apiResponse) then
        let errorText := api_text apiResponse in
        console_error [LVal (str "Gemini API error:");
                       LVal (JNum (num_of_Z (api_status apiResponse)));
                       LVal (JStr errorText)] ;;;
        respond (api_status apiResponse) (JObj [
          (js "error", str "Gemini API call failed");
          (js "status", JNum (num_of_Z (api_status apiResponse)));
          (js "details", JStr errorText)])
      else
        result <- api_json apiResponse ;;
        extract_and_answer result.

(** The handler of [POST /translate]: the [try] block and its [catch]
    (lines 114-117). *)
Definition translate (w : World) (req_body : JsVal) : Eff HttpResponse :=
  try_catch (translate_try w req_body)
    (fun error =>
       console_error [LVal (str "Server error:"); LErr error] ;;;
       respond 500 (error_body "Internal server error")).

(** One request, from an empty trace. *)
Definition handle (w : World) (req_body : JsVal) : completion HttpResponse * list event :=
  translate w req_body [].

End Handler.

Arguments FetchInit {Num}.
Arguments World {Num}.
Arguments HttpResponse {Num}.
Arguments event {Num}.
Arguments logarg {Num}.

(* ------------------------------------------------------------------ *)
(** ** The nested generated-text field, as the specification names it *)

Section Path.
Context {Num : JsNumber}.

(** The member [k] of a value; [undefined] when there is none. *)
Definition member (k : jsstring) (v : JsVal) : JsVal :=
  match v with
  | JObj props => match lookup k props with Some x => x | None => JUndefined end
  | _ => JUndefined
  end.

(** The element at index 0 of a value; [undefined] when there is none. *)
Definition first (v : JsVal) : JsVal :=
  match v with
  | JArr (x :: _) => x
  | JStr (c :: _) => JStr [c]
  | JObj props => match lookup (js "0") props with Some x => x | None => JUndefined end
  | _ => JUndefined
  end.

(** [candidates[0].content.parts[0].text] inside the reply of the external
    API; [undefined] as soon as one level is missing. *)
Definition generated_text (result : JsVal) : JsVal :=
  member (js "text")
    (first (member (js "parts")
      (member (js "content")
        (first (member (js "candidates") result))))).

End Path.

(* ------------------------------------------------------------------ *)
(** ** A reference runtime

    An executable instance of the runtime interface, used to run the
    handler on concrete requests.  Numbers are the integers; [JSON_parse] is
    a recursive-descent parser for JSON texts whose numbers are integer
    literals and whose strings use the two-character escapes only (on such
    texts it computes what [JSON.parse] computes; any other text is
    rejected). *)

Module Ref.

Definition digits (z : Z) : jsstring := js (NilZero.string_of_int (Z.to_int z)).

Definition RefNum : JsNumber :=
  {| number := Z;
     num_of_Z := fun z => z;
     num_is_falsy := fun z => (z =? 0)%Z;
     num_toString := digits |}.

Definition value : Type := @JsVal RefNum.

Definition num (z : Z) : value := @JNum RefNum z.

Definition json_ws (c : N) : bool :=
  (c =? 32) || (c =? 9) || (c =? 10) || (c =? 13).

Fixpoint skip_ws (s : jsstring) : jsstring :=
  match s with
  | c :: r => if json_ws c then skip_ws r else s
  | [] => []
  end.

Definition is_digit (c : N) : bool := (48 <=? c) && (c <=? 57).

(** The digits at the head of [s], their value on top of [acc], and the
    rest. *)
Fixpoint parse_digits (acc : N) (s : jsstring) : N * jsstring :=
  match s with
  | c :: r => if is_digit c then parse_digits (10 * acc + (c - 48)) r else (acc, s)
  | [] => (acc, [])
  end.

(** An integer literal without sign: [0], or digits not starting with [0];
    a fraction or an exponent after it is outside the fragment. *)
Definition parse_nat (s : jsstring) : option (N * jsstring) :=
  match s with
  | c :: r =>
      if is_digit c then
        let '(n, rest) := if c =? 48 then (0, r) else parse_digits 0 s in
        match rest with
        | d :: _ => if is_digit d || (d =? 46) || (d =? 101) || (d =? 69)
                    then None else Some (n, rest)
        | [] => Some (n, rest)
        end
      else None
  | [] => None
  end.

(** The characters of a string literal after its opening quote. *)
Fixpoint parse_chars (s : jsstring) : option (jsstring * jsstring) :=
  match s with
  | [] => None
  | 34 :: r => Some ([], r)
  | 92 :: e :: r =>
      let unescaped :=
        match e with
        | 34 => Some 34 | 92 => Some 92 | 47 => Some 47
        | 98 => Some 8 | 102 => Some 12 | 110 => Some 10
        | 114 => Some 13 | 116 => Some 9
        | _ => None
        end in
      match unescaped, parse_chars r with
      | Some c, Some (cs, rest) => Some (c :: cs, rest)
      | _, _ => None
      end
  | c :: r =>
      if c <? 32 then None
      else match parse_chars r with
           | Some (cs, rest) => Some (c :: cs, rest)
           | None => None
           end
  end.

(** Defining a property: a key that is already there keeps its place and
    takes the new value. *)
Fixpoint set_prop (k : jsstring) (v : value) (props : list (jsstring * value))
  : list (jsstring * value) :=
  match props with
  | [] => [(k, v)]
  | (k', v') :: r => if jseqb k k' then (k', v) :: r else (k', v') :: set_prop k v r
  end.

Fixpoint parse_value (fuel : nat) (s : jsstring) : option (value * jsstring) :=
  match fuel with
  | O => None
  | S f =>
      match skip_ws s with
      | 110 :: 117 :: 108 :: 108 :: r => Some (JNull, r)
      | 116 :: 114 :: 117 :: 101 :: r => Some (JBool true, r)
      | 102 :: 97 :: 108 :: 115 :: 101 :: r => Some (JBool false, r)
      | 34 :: r =>
          match parse_chars r with
          | Some (cs, rest) => Some (JStr cs, rest)
          | None => None
          end
      | 45 :: r =>
          match parse_nat r with
          | Some (n, rest) => Some (num (- Z.of_N n), rest)
          | None => None
          end
      | 91 :: r =>
          match skip_ws r with
          | 93 :: rest => Some (JArr [], rest)
          | _ => match parse_elems f r with
                 | Some (vs, rest) => Some (JArr vs, rest)
                 | None => None
                 end
          end
      | 123 :: r =>
          match skip_ws r with
          | 125 :: rest => Some (JObj [], rest)
          | _ => match parse_members f [] r with
                 | Some (ps, rest) => Some (JObj ps, rest)
                 | None => None
                 end
          end
      | r =>
          match parse_nat r with
          | Some (n, rest) => Some (num (Z.of_N n), rest)
          | None => None
          end
      end
  end

with parse_elems (fuel : nat) (s : jsstring) : option (list value * jsstring) :=
  match fuel with
  | O => None
  | S f =>
      match parse_value f s with
      | Some (v, rest) =>
          match skip_ws rest with
          | 93 :: rest' => Some ([v], rest')
          | 44 :: rest' =>
              match parse_elems f rest' with
              | Some (vs, rest'') => Some (v :: vs, rest'')
              | None => None
              end
          | _ => None
          end
      | None => None
      end
  end

with parse_members (fuel : nat) (acc : list (jsstring * value)) (s : jsstring)
  : option (list (jsstring * value) * jsstring) :=
  match fuel with
  | O => None
  | S f =>
      match skip_ws s with
      | 34 :: r =>
          match parse_chars r with
          | Some (k, rest) =>
              match skip_ws rest with
              | 58 :: rest' =>
                  match parse_value f rest' with
                  | Some (v, rest'') =>
                      let acc' := set_prop k v acc in
                      match skip_ws rest'' with
                      | 125 :: rest3 => Some (acc', rest3)
                      | 44 :: rest3 => parse_members f acc' rest3
                      | _ => None
                      end
                  | None => None
                  end
              | _ => None
              end
          | None => None
          end
      | _ => None
      end
  end.

(** [JSON.parse] on the fragment. *)
Definition JSON_parse (s : jsstring) : option value :=
  match parse_value (S (List.length s)) s with
  | Some (v, rest) => match skip_ws rest with [] => Some v | _ => None end
  | None => None
  end.

(** [q "abc"]: the JSON string literal of an ASCII text without quotes
    and backslashes. *)
Definition q (s : string) : jsstring := [34] ++ js s ++ [34].

End Ref.

Module Fixture.

(** The JSON string literal of a string (quotes, backslashes and the
    control characters that have a two-character escape are escaped). *)
Fixpoint escape (s : jsstring) : jsstring :=
  match s with
  | [] => []
  | c :: r =>
      (if c =? 34 then [92; 34]
       else if c =? 92 then [92; 92]
       else if c =? 8 then [92; 98]
       else if c =? 9 then [92; 116]
       else if c =? 10 then [92; 110]
       else if c =? 12 then [92; 102]
       else if c =? 13 then [92; 114]
       else [c]) ++ escape r
  end.

Definition quote (s : jsstring) : jsstring := [34] ++ escape s ++ [34].

(** The body of a reply of the external API whose generated text is [t]:
    [{"candidates":[{"content":{"parts":[{"text":t}]}}]}]. *)
Definition reply_text (t : jsstring) : jsstring :=
  js "{" ++ Ref.q "candidates" ++ js ":[{" ++ Ref.q "content" ++ js ":{"
  ++ Ref.q "parts" ++ js ":[{" ++ Ref.q "text" ++ js ":" ++ quote t ++ js "}]}}]}".

(** The JSON text [{"germanWord":g,"englishTranslation":e,"details":d}]. *)
Definition translation_text (g e d : jsstring) : jsstring :=
  js "{" ++ Ref.q "germanWord" ++ js ":" ++ quote g ++ js ","
  ++ Ref.q "englishTranslation" ++ js ":" ++ quote e ++ js ","
  ++ Ref.q "details" ++ js ":" ++ quote d ++ js "}".

(** A world whose credential is set and whose external service answers
    every call with the given status and body. *)
Definition world_replying (status : Z) (body : jsstring) : @World Ref.RefNum :=
  {| GEMINI_API_KEY := Some (js "test-key");
     fetch := fun _ _ => Replied {| api_status := status; api_text := body |} |}.

(** The same world without the credential. *)
Definition world_without_key (status : Z) (body : jsstring) : @World Ref.RefNum :=
  {| GEMINI_API_KEY := None;
     fetch := fetch (world_replying status body) |}.

(** A world in which the external service cannot be reached. *)
Definition world_unreachable : @World Ref.RefNum :=
  {| GEMINI_API_KEY := Some (js "test-key");
     fetch := fun _ _ => Rejected |}.

(** The request body [{"germanWord": v}]. *)
Definition request_with (v : Ref.value) : Ref.value := JObj [(js "germanWord", v)].

Definition request (w : jsstring) : Ref.value := request_with (JStr w).

(** The value that [reply_text t] parses to. *)
Definition reply_value (t : jsstring) : Ref.value :=
  JObj [(js "candidates", JArr [
    JObj [(js "content", JObj [
      (js "parts", JArr [JObj [(js "text", JStr t)]])])]])].

(** The properties that [translation_text g e d] parses to. *)
Definition translation_props (g e d : jsstring) : list (jsstring * Ref.value) :=
  [(js "germanWord", JStr g); (js "englishTranslation", JStr e); (js "details", JStr d)].

(** The reply of the specification's round trip:
    [{germanWord:"das Haus", englishTranslation:"the house", details:"die Häuser"}]
    (228 is the code unit of a-umlaut). *)
Definition das_Haus : jsstring := js "das Haus".
Definition the_house : jsstring := js "the house".
Definition die_Haeuser : jsstring := js "die H" ++ [228] ++ js "user".

(** The body of a reply whose [text] member is the JSON text [j] itself
    (not a string holding it). *)
Definition reply_with (j : jsstring) : jsstring :=
  js "{" ++ Ref.q "candidates" ++ js ":[{" ++ Ref.q "content" ++ js ":{"
  ++ Ref.q "parts" ++ js ":[{" ++ Ref.q "text" ++ js ":" ++ j ++ js "}]}}]}".

(** The value that [reply_with j] parses to when [j] parses to [v]. *)
Definition reply_value_with (v : Ref.value) : Ref.value :=
  JObj [(js "candidates", JArr [
    JObj [(js "content", JObj [
      (js "parts", JArr [JObj [(js "text", v)]])])]])].

(** A generated text whose [germanWord] is an object with a [toString]
    member: [{"germanWord":{"toString":1},"details":"x"}]. *)
Definition odd_word_text : jsstring :=
  js "{" ++ Ref.q "germanWord" ++ js ":{" ++ Ref.q "toString" ++ js ":1},"
  ++ Ref.q "details" ++ js ":" ++ Ref.q "x" ++ js "}".

Definition odd_word_value : Ref.value :=
  JObj [(js "germanWord", JObj [(js "toString", Ref.num 1)]);
        (js "details", JStr (js "x"))].

(** The word of the requests below, and the credential of the worlds. *)
Definition Haus : jsstring := js "Haus".
Definition key : jsstring := js "test-key".

End Fixture.

(* ------------------------------------------------------------------ *)
(** ** The situations the specification distinguishes *)

Section Situations.
Context {Num : JsNumber}.

(** The request carries a word that is a string and is not empty once
    trimmed. *)
Definition valid_request (req_body : JsVal) (word : jsstring) : Prop :=
  get req_body (js "germanWord") = Normal (JStr word) /\ trim word <> [].

(** The credential is present in the environment. *)
Definition configured (w : World) (key : jsstring) : Prop :=
  GEMINI_API_KEY w = Some key /\ key <> [].

(** The reply of the external service to the call the handler issues for
    [word] with credential [key]. *)
Definition external_reply (w : World) (word key : jsstring) (r : ApiResponse) : Prop :=
  fetch w (apiUrl key) (fetch_init (js "German word: " ++ word)) = Replied r.

Definition status_2xx (r : ApiResponse) : Prop := (200 <= api_status r < 300)%Z.

(** The effects of the handler up to and including the external call. *)
Definition trace_to_api (word key : jsstring) : list event :=
  [ EvLog [LVal (str "Received word from frontend:"); LVal (JStr word)];
    EvLog [LVal (str "Calling Gemini API...")];
    EvFetch (apiUrl key) (fetch_init (js "German word: " ++ word)) ].

Definition answer (code : Z) (body : JsVal) : HttpResponse :=
  {| res_status := code; res_body := body |}.

End Situations.

(* ------------------------------------------------------------------ *)
(** ** The answers the handler can give *)

Section Answers.
Context {Num : JsNumber}.

(** One kind per [res.json] call of the source. *)
Inductive kind : Type :=
| KValidation     (* line 22 *)
| KNoKey          (* line 57 *)
| KUpstream       (* lines 74-78 *)
| KInvalidReply   (* line 88 *)
| KUnparsable     (* lines 98-101 *)
| KSuccess        (* lines 108-112 *)
| KInternal.      (* line 116 *)

(** The status and body of each kind of answer. *)
Inductive answer_shape : kind -> HttpResponse -> Prop :=
| shape_validation :
    answer_shape KValidation (answer 400 (error_body "germanWord is required"))
| shape_no_key :
    answer_shape KNoKey (answer 500 (error_body "Server misconfiguration: API key missing"))
| shape_upstream (status : Z) (text : jsstring) :
    ~ (200 <= status < 300)%Z ->
    (100 <= status <= 999)%Z ->
    answer_shape KUpstream (answer status (JObj [
      (js "error", str "Gemini API call failed");
      (js "status", JNum (num_of_Z status));
      (js "details", JStr text)]))
| shape_invalid_reply :
    answer_shape KInvalidReply (answer 500 (error_body "Invalid response from Gemini API"))
| shape_unparsable (raw : JsVal) :
    truthy raw = true ->
    answer_shape KUnparsable (answer 500 (JObj [
      (js "error", str "Failed to parse JSON from Gemini");
      (js "raw", raw)]))
| shape_success (g d : jsstring) (english parsedData : JsVal) :
    answer_shape KSuccess (answer 200 (JObj [
      (js "german", JStr (fullGerman_of g d));
      (js "english", english);
      (js "raw", parsedData)]))
| shape_internal :
    answer_shape KInternal (answer 500 (error_body "Internal server error")).

(** How a request is handled: the kind of its answer and the calls of the
    external API made on the way, by what the request and the environment
    hold. *)
Inductive handled (w : World) (req_body : JsVal) : kind -> list event -> Prop :=
| handled_unreadable :
    is_nullish req_body = true ->
    handled w req_body KInternal []
| handled_falsy (v : JsVal) :
    get req_body (js "germanWord") = Normal v ->
    truthy v = false ->
    handled w req_body KValidation []
| handled_blank (s : jsstring) :
    get req_body (js "germanWord") = Normal (JStr s) ->
    s <> [] -> trim s = [] ->
    handled w req_body KValidation []
| handled_not_string (v : JsVal) :
    get req_body (js "germanWord") = Normal v ->
    truthy v = true ->
    (forall s, v <> JStr s) ->
    handled w req_body KInternal []
| handled_no_key (word : jsstring) :
    valid_request req_body word ->
    GEMINI_API_KEY w = None \/ GEMINI_API_KEY w = Some [] ->
    handled w req_body KNoKey []
| handled_called (word key : jsstring) (k : kind) :
    valid_request req_body word ->
    configured w key ->
    In k [KUpstream; KInvalidReply; KUnparsable; KSuccess; KInternal] ->
    handled w req_body k
      [EvFetch (apiUrl key) (fetch_init (js "German word: " ++ word))].

(** A step of the handler that runs after the external call: it calls
    nothing, and when it answers, the answer is of one of the given
    kinds. *)
Definition ends_within (kinds : list kind) (tr : list event)
    (o : completion HttpResponse * list event) : Prop :=
  fetch_calls (snd o) = fetch_calls tr
  /\ match fst o with
     | Throw _ => True
     | Normal resp => exists k, In k kinds /\ answer_shape k resp
     end.

End Answers.

(* ------------------------------------------------------------------ *)
(** ** Properties of trimming *)

Arguments js : simpl never.

Lemma trim_start_whitespace (s : jsstring) :
  whitespace_only s -> trim_start s = [].
Proof.
  induction 1 as [| c r Hc _ IH]; simpl.
  - reflexivity.
  - rewrite Hc. exact IH.
Qed.

Lemma trim_whitespace (s : jsstring) :
  whitespace_only s -> trim s = [].
Proof.
  intros H. unfold trim, trim_end.
  rewrite (trim_start_whitespace s H). reflexivity.
Qed.

Lemma trim_start_nil_whitespace (s : jsstring) :
  trim_start s = [] -> whitespace_only s.
Proof.
  induction s as [| c r IH]; simpl; intros H.
  - constructor.
  - destruct (is_ws c) eqn:Hc.
    + constructor; [exact Hc | exact (IH H)].
    + discriminate.
Qed.

Lemma trim_start_suffix (s : jsstring) :
  exists p, s = p ++ trim_start s /\ whitespace_only p.
Proof.
  induction s as [| c r [p [Hp Hw]]]; simpl.
  - exists []. split; [reflexivity | constructor].
  - destruct (is_ws c) eqn:Hc.
    + exists (c :: p). split.
      * simpl. f_equal. exact Hp.
      * constructor; assumption.
    + exists []. split; [reflexivity | constructor].
Qed.

(** The strings that [trim] empties are exactly the white-space ones. *)
Lemma trim_nil_iff (s : jsstring) :
  trim s = [] <-> whitespace_only s.
Proof.
  split; [| apply trim_whitespace].
  unfold trim, trim_end. intros H.
  destruct (trim_start_suffix s) as [p [Hp Hw]].
  assert (Hr : trim_start (rev (trim_start s)) = []).
  { destruct (trim_start (rev (trim_start s))) as [| x l] eqn:E; [reflexivity |].
    simpl in H. destruct (rev l); discriminate. }
  apply trim_start_nil_whitespace in Hr.
  rewrite Hp. unfold whitespace_only in *. apply Forall_app. split; [exact Hw |].
  rewrite <- (rev_involutive (trim_start s)). apply Forall_rev. exact Hr.
Qed.

(* ------------------------------------------------------------------ *)
(** ** The handler, step by step *)

(** Unfolds the monad and the case analyses that are decided. *)
Ltac run :=
  cbv beta iota zeta delta
    [handle translate try_catch translate_try attempt bind lift ret respond
     console_log console_error emit tostr do_fetch api_json JSON_parse_val
     negb call_trim env_key ToString answer].

Section Properties.
Context {Num : JsNumber}.
Variable JSON_parse : jsstring -> option JsVal.

Lemma valid_status_range (code : Z) :
  valid_status code = true <-> (100 <= code <= 999)%Z.
Proof.
  unfold valid_status. rewrite andb_true_iff, !Z.leb_le. tauto.
Qed.

(** Express sends the answer when the status is in 100-999, and throws
    otherwise. *)
Lemma respond_valid (code : Z) (body : JsVal) (tr : list event) :
  (100 <= code <= 999)%Z ->
  respond code body tr = (Normal (answer code body), tr).
Proof.
  intros H. apply valid_status_range in H. unfold respond. rewrite H. reflexivity.
Qed.

Lemma respond_invalid (code : Z) (body : JsVal) (tr : list event) :
  ~ (100 <= code <= 999)%Z ->
  respond code body tr = (Throw RangeError, tr).
Proof.
  intros H. unfold respond.
  destruct (valid_status code) eqn:E; [| reflexivity].
  apply valid_status_range in E. contradiction.
Qed.

Lemma truthy_JStr (s : jsstring) : truthy (JStr s) = true <-> s <> [].
Proof.
  destruct s; simpl; split; intros H; congruence.
Qed.

Lemma api_ok_2xx (r : ApiResponse) : api_ok r = true <-> status_2xx r.
Proof.
  unfold api_ok, status_2xx. rewrite andb_true_iff, Z.leb_le, Z.ltb_lt. tauto.
Qed.

(** A request whose word is valid, with the credential present, reaches
    the external call; what follows depends on the reply only. *)
Lemma translate_try_reaches_api (w : World) (req_body : JsVal)
    (word key : jsstring) (r : ApiResponse) :
  valid_request req_body word ->
  configured w key ->
  external_reply w word key r ->
  translate_try JSON_parse w req_body [] =
    if api_ok r then
      bind (api_json JSON_parse r) (extract_and_answer JSON_parse) (trace_to_api word key)
    else
      respond (api_status r) (JObj [
          (js "error", str "Gemini API call failed");
          (js "status", JNum (num_of_Z (api_status r)));
          (js "details", JStr (api_text r))])
        (trace_to_api word key
         ++ [EvError [LVal (str "Gemini API error:");
                      LVal (JNum (num_of_Z (api_status r)));
                      LVal (JStr (api_text r))]]).
Proof.
  intros [Hget Htrim] [Hkey Hne] Hreply.
  apply truthy_JStr in Htrim.
  assert (Hword : truthy (JStr word) = true).
  { apply truthy_JStr. intros ->. apply truthy_JStr in Htrim. now apply Htrim. }
  apply truthy_JStr in Hne.
  unfold external_reply in Hreply.
  run. rewrite Hget. run. rewrite Hword. run. rewrite Htrim. run.
  rewrite Hkey. run. rewrite Hne. run. rewrite Hreply. run.
  destruct (api_ok r); reflexivity.
Qed.

(** *** Reading members *)

Lemma truthy_not_nullish (v : JsVal) : truthy v = true -> is_nullish v = false.
Proof. destruct v; simpl; congruence. Qed.

Lemma get_member (v : JsVal) (k : jsstring) :
  is_nullish v = false -> get v k = Normal (member k v).
Proof. destruct v; simpl; congruence. Qed.

Lemma get_opt_member (v : JsVal) (k : jsstring) :
  get_opt v k = Normal (member k v).
Proof. destruct v; reflexivity. Qed.

Lemma get0_first (v : JsVal) :
  is_nullish v = false -> get0 v = Normal (first v).
Proof.
  destruct v as [| | b | n | [| c s] | [| x l] | props]; simpl; congruence.
Qed.

Lemma get0_opt_first (v : JsVal) : get0_opt v = Normal (first v).
Proof.
  destruct v as [| | b | n | [| c s] | [| x l] | props]; reflexivity.
Qed.

Lemma member_of_nullish (v : JsVal) (k : jsstring) :
  is_nullish v = true -> member k v = JUndefined.
Proof. destruct v; simpl; congruence. Qed.

Lemma first_of_nullish (v : JsVal) :
  is_nullish v = true -> first v = JUndefined.
Proof. destruct v; simpl; congruence. Qed.

Lemma member_of_falsy (v : JsVal) (k : jsstring) :
  truthy v = false -> member k v = JUndefined.
Proof. destruct v; simpl; congruence. Qed.

(** A member or an element that is there comes from a value that is
    neither null nor undefined. *)
Lemma member_truthy_base (v : JsVal) (k : jsstring) :
  member k v <> JUndefined -> is_nullish v = false.
Proof.
  intros H. destruct (is_nullish v) eqn:E; [| reflexivity].
  elim H. now apply member_of_nullish.
Qed.

Lemma first_truthy_base (v : JsVal) :
  first v <> JUndefined -> is_nullish v = false.
Proof.
  intros H. destruct (is_nullish v) eqn:E; [| reflexivity].
  elim H. now apply first_of_nullish.
Qed.

Lemma truthy_defined (v : JsVal) : truthy v = true -> v <> JUndefined.
Proof. intros H ->. discriminate. Qed.

Lemma nullish_undefined (v : JsVal) : is_nullish v = false -> v <> JUndefined.
Proof. intros H ->. discriminate. Qed.

(** *** The unwrapping of the reply (lines 84-91)

    The guarded chain of the source computes the path
    [candidates[0].content.parts[0].text]: the reply is refused exactly when
    the value at the end of the path is falsy, and otherwise the text that
    is parsed is that value. *)
Lemma extract_and_answer_path (result : JsVal) (tr : list event) :
  is_nullish result = false ->
  extract_and_answer JSON_parse result tr =
    if truthy (generated_text result) then
      parse_and_answer JSON_parse (generated_text result) tr
    else
      (Normal (answer 500 (error_body "Invalid response from Gemini API")),
       tr ++ [EvError [LVal (str "Invalid Gemini response structure:"); LVal result]]).
Proof.
  intros Hres. unfold extract_and_answer, generated_text.
  set (candidate := first (member (js "candidates") result)).
  run. rewrite (get_member _ _ Hres). run.
  rewrite get0_opt_first. run. fold candidate.
  destruct (truthy candidate) eqn:Hc.
  - (* a candidate is there *)
    pose proof (truthy_not_nullish _ Hc) as Hcn.
    rewrite (get_member _ _ Hcn). run.
    rewrite get_opt_member. run. rewrite get0_opt_first. run.
    rewrite get_opt_member. run.
    set (content := member (js "content") candidate).
    set (parts := member (js "parts") content).
    set (part0 := first parts).
    destruct (truthy (member (js "text") part0)) eqn:Ht.
    + (* the text is there: the second, unguarded chain reads the same value *)
      assert (Hp0 : is_nullish part0 = false).
      { apply (member_truthy_base _ (js "text")). now apply truthy_defined. }
      assert (Hps : is_nullish parts = false).
      { apply first_truthy_base. now apply nullish_undefined. }
      assert (Hct : is_nullish content = false).
      { apply (member_truthy_base _ (js "parts")). now apply nullish_undefined. }
      fold content. rewrite (get_member _ _ Hct). run. fold parts.
      rewrite (get0_first _ Hps). run. fold part0.
      rewrite (get_member _ _ Hp0). reflexivity.
    + reflexivity.
  - (* no candidate *)
    rewrite (member_of_falsy _ (js "content") Hc). reflexivity.
Qed.

(** *** Parsing the generated text and answering (lines 93-112) *)

Lemma parse_and_answer_failure (t : jsstring) (tr : list event) :
  JSON_parse t = None ->
  parse_and_answer JSON_parse (JStr t) tr =
    (Normal (answer 500 (JObj [
        (js "error", str "Failed to parse JSON from Gemini");
        (js "raw", JStr t)])),
     tr ++ [EvError [LVal (str "Error parsing JSON from Gemini:"); LErr SyntaxError;
                     LVal (str "Raw text:"); LVal (JStr t)]]).
Proof.
  intros Hp. unfold parse_and_answer. run. rewrite Hp. reflexivity.
Qed.

Lemma build_response_ok (parsedData : JsVal) (g d : jsstring) (tr : list event) :
  is_nullish parsedData = false ->
  ToString (member (js "germanWord") parsedData) = Some g ->
  ToString (member (js "details") parsedData) = Some d ->
  build_response parsedData tr =
    (Normal (answer 200 (JObj [
        (js "german", JStr (fullGerman_of g d));
        (js "english", member (js "englishTranslation") parsedData);
        (js "raw", parsedData)])), tr).
Proof.
  intros Hn Hg Hd. unfold build_response.
  cbv beta iota zeta delta [bind lift ret respond tostr answer].
  rewrite !(get_member _ _ Hn). cbv beta iota. rewrite Hg. cbv beta iota.
  rewrite Hd. reflexivity.
Qed.

Lemma build_response_null (tr : list event) :
  build_response JNull tr = (Throw TypeError, tr).
Proof. reflexivity. Qed.

Lemma parse_and_answer_success (t : jsstring) (parsedData : JsVal) (tr : list event) :
  JSON_parse t = Some parsedData ->
  parse_and_answer JSON_parse (JStr t) tr = build_response parsedData tr.
Proof.
  intros Hp. unfold parse_and_answer. run. rewrite Hp. reflexivity.
Qed.

(** *** The [catch] block *)

Lemma handle_normal (w : World) (req_body : JsVal) (resp : HttpResponse) (tr : list event) :
  translate_try JSON_parse w req_body [] = (Normal resp, tr) ->
  handle JSON_parse w req_body = (Normal resp, tr).
Proof.
  intros H. unfold handle, translate, try_catch. rewrite H. reflexivity.
Qed.

Lemma handle_throw (w : World) (req_body : JsVal) (e : exn) (tr : list event) :
  translate_try JSON_parse w req_body [] = (Throw e, tr) ->
  handle JSON_parse w req_body =
    (Normal (answer 500 (error_body "Internal server error")),
     tr ++ [EvError [LVal (str "Server error:"); LErr e]]).
Proof.
  intros H. unfold handle, translate, try_catch. rewrite H. reflexivity.
Qed.

(** A valid request with the credential present and a 2xx reply whose body
    is JSON reaches the unwrapping of the reply. *)
Lemma translate_try_reaches_extract (w : World) (req_body : JsVal)
    (word key : jsstring) (r : ApiResponse) (result : JsVal) :
  valid_request req_body word ->
  configured w key ->
  external_reply w word key r ->
  status_2xx r ->
  JSON_parse (api_text r) = Some result ->
  translate_try JSON_parse w req_body [] =
    extract_and_answer JSON_parse result (trace_to_api word key).
Proof.
  intros Hreq Hcfg Hreply Hok Hjson.
  rewrite (translate_try_reaches_api _ _ _ _ _ Hreq Hcfg Hreply).
  apply api_ok_2xx in Hok. rewrite Hok.
  run. rewrite Hjson. reflexivity.
Qed.

End Properties.

(* ------------------------------------------------------------------ *)
(** ** The properties of the specification *)

Section Specification.
Context {Num : JsNumber}.
Variable JSON_parse : jsstring -> option JsVal.

Lemma generated_text_base (result : JsVal) :
  generated_text result <> JUndefined -> is_nullish result = false.
Proof.
  intros H. destruct result; try reflexivity; elim H; reflexivity.
Qed.

(** The answer of the handler to a valid request whose external reply is
    2xx and carries a generated text that parses. *)
Lemma handle_parsed (w : World) (req_body : JsVal) (word key : jsstring)
    (r : ApiResponse) (result : JsVal) (t : jsstring) (parsedData : JsVal) :
  valid_request req_body word ->
  configured w key ->
  external_reply w word key r ->
  status_2xx r ->
  JSON_parse (api_text r) = Some result ->
  generated_text result = JStr t ->
  t <> [] ->
  JSON_parse t = Some parsedData ->
  translate_try JSON_parse w req_body [] = build_response parsedData (trace_to_api word key).
Proof.
  intros Hreq Hcfg Hreply Hok Hjson Htext Hne Hparse.
  rewrite (translate_try_reaches_extract _ _ _ _ _ _ _ Hreq Hcfg Hreply Hok Hjson).
  rewrite extract_and_answer_path.
  - rewrite Htext. apply truthy_JStr in Hne. rewrite Hne.
    now apply parse_and_answer_success.
  - apply generated_text_base. rewrite Htext. discriminate.
Qed.

(** C1. A valid request, a 2xx reply of the external API that contains the
    generated text, and a text that parses to an object whose fields
    [germanWord], [englishTranslation] and [details] are strings: the
    handler answers 200 with [german] the word, two newlines and the
    details in parentheses, [english] the translation as it is, and [raw]
    the parsed object; the external API was called once. *)
Theorem translate_success (w : World) (req_body : JsVal) (word key : jsstring)
    (r : ApiResponse) (result : JsVal) (t : jsstring)
    (props : list (jsstring * JsVal)) (g e d : jsstring) :
  valid_request req_body word ->
  configured w key ->
  external_reply w word key r ->
  status_2xx r ->
  JSON_parse (api_text r) = Some result ->
  generated_text result = JStr t ->
  t <> [] ->
  JSON_parse t = Some (JObj props) ->
  lookup (js "germanWord") props = Some (JStr g) ->
  lookup (js "englishTranslation") props = Some (JStr e) ->
  lookup (js "details") props = Some (JStr d) ->
  handle JSON_parse w req_body =
    (Normal (answer 200 (JObj [
        (js "german", JStr (g ++ [10; 10] ++ js "(" ++ d ++ js ")"));
        (js "english", JStr e);
        (js "raw", JObj props)])),
     trace_to_api word key).
Proof.
  intros Hreq Hcfg Hreply Hok Hjson Htext Hne Hparse Hg He Hd.
  apply handle_normal.
  rewrite (handle_parsed _ _ _ _ _ _ _ _ Hreq Hcfg Hreply Hok Hjson Htext Hne Hparse).
  rewrite (build_response_ok (JObj props) g d); simpl; try rewrite Hg; try rewrite Hd;
    try reflexivity.
  rewrite He. reflexivity.
Qed.

(** C2 (amended). When the request has a parsed body ([req.body] is
    neither [null] nor [undefined]) and [germanWord] is absent from it,
    empty, or made of white space only, the answer is 400 with the body
    [{error: "germanWord is required"}], and the external API is not
    called. *)
Theorem validation_rejects_missing_word (w : World) (req_body : JsVal) :
  is_nullish req_body = false ->
  (member (js "germanWord") req_body = JUndefined
   \/ exists s, member (js "germanWord") req_body = JStr s /\ whitespace_only s) ->
  fst (handle JSON_parse w req_body)
    = Normal (answer 400 (error_body "germanWord is required"))
  /\ fetch_calls (snd (handle JSON_parse w req_body)) = [].
Proof.
  intros Hbody Hv.
  pose proof (get_member req_body (js "germanWord") Hbody) as Hget.
  assert (H : handle JSON_parse w req_body
              = (Normal (answer 400 (error_body "germanWord is required")), [])).
  { run. rewrite Hget. run.
    destruct Hv as [-> | [s [-> Hws]]].
    - reflexivity.
    - cbv beta iota delta [truthy]. destruct s as [| c s']; [reflexivity |].
      rewrite (trim_whitespace _ Hws). reflexivity. }
  rewrite H. split; reflexivity.
Qed.

(** C3. A valid request while the credential [GEMINI_API_KEY] is absent
    (unset, or set to the empty string) is answered 500 with the body
    [{error: "Server misconfiguration: API key missing"}], and the external
    API is not called. *)
Theorem missing_key_rejected (w : World) (req_body : JsVal) (word : jsstring) :
  valid_request req_body word ->
  (GEMINI_API_KEY w = None \/ GEMINI_API_KEY w = Some []) ->
  fst (handle JSON_parse w req_body)
    = Normal (answer 500 (error_body "Server misconfiguration: API key missing"))
  /\ fetch_calls (snd (handle JSON_parse w req_body)) = [].
Proof.
  intros [Hget Htrim] Hkey.
  apply truthy_JStr in Htrim.
  assert (Hword : truthy (JStr word) = true).
  { apply truthy_JStr. intros ->. apply truthy_JStr in Htrim. now apply Htrim. }
  assert (H : handle JSON_parse w req_body
              = (Normal (answer 500 (error_body "Server misconfiguration: API key missing")),
                 [EvLog [LVal (str "Received word from frontend:"); LVal (JStr word)];
                  EvError [LVal (str "GEMINI_API_KEY is missing in .env")]])).
  { run. rewrite Hget. run. rewrite Hword. run. rewrite Htrim. run.
    destruct Hkey as [-> | ->]; reflexivity. }
  rewrite H. split; reflexivity.
Qed.

(** C4 (amended). When the external API replies with a status S outside
    200-299 that express can send (100 to 999), the handler answers with
    status S and the body
    [{error, status: S, details: <body text of the reply>}]; so a reply
    429 is answered 429 with [status: 429]. *)
Theorem upstream_status_mirrored (w : World) (req_body : JsVal) (word key : jsstring)
    (r : ApiResponse) :
  valid_request req_body word ->
  configured w key ->
  external_reply w word key r ->
  ~ status_2xx r ->
  (100 <= api_status r <= 999)%Z ->
  fst (handle JSON_parse w req_body) =
    Normal (answer (api_status r) (JObj [
      (js "error", str "Gemini API call failed");
      (js "status", JNum (num_of_Z (api_status r)));
      (js "details", JStr (api_text r))])).
Proof.
  intros Hreq Hcfg Hreply Hnok Hrange.
  assert (Hok : api_ok r = false).
  { destruct (api_ok r) eqn:E; [| reflexivity]. elim Hnok. now apply api_ok_2xx. }
  pose proof (translate_try_reaches_api JSON_parse _ _ _ _ _ Hreq Hcfg Hreply) as H.
  rewrite Hok, (respond_valid _ _ _ Hrange) in H.
  rewrite (handle_normal _ _ _ _ _ H). reflexivity.
Qed.

(** C5 (amended). When the external API replies 2xx with a JSON body other
    than [null] in which the path [candidates[0].content.parts[0].text]
    leads to nothing or to a falsy value (no [candidates], no first
    candidate, no [content], no [parts], no first part, no [text], an empty
    [text]), the handler answers 500 with the body
    [{error: "Invalid response from Gemini API"}] and nothing else. *)
Theorem missing_text_rejected (w : World) (req_body : JsVal) (word key : jsstring)
    (r : ApiResponse) (result : JsVal) :
  valid_request req_body word ->
  configured w key ->
  external_reply w word key r ->
  status_2xx r ->
  JSON_parse (api_text r) = Some result ->
  is_nullish result = false ->
  truthy (generated_text result) = false ->
  fst (handle JSON_parse w req_body)
    = Normal (answer 500 (error_body "Invalid response from Gemini API")).
Proof.
  intros Hreq Hcfg Hreply Hok Hjson Hres Hmissing.
  pose proof (translate_try_reaches_extract JSON_parse _ _ _ _ _ _
                Hreq Hcfg Hreply Hok Hjson) as H.
  rewrite (extract_and_answer_path _ _ _ Hres), Hmissing in H.
  rewrite (handle_normal _ _ _ _ _ H). reflexivity.
Qed.

(** C6. When the external API replies 2xx and the generated text is there
    but does not parse as JSON, the handler answers 500 with a body made of
    an [error] field and a [raw] field that is the generated text,
    unchanged. *)
Theorem unparsable_text_returned (w : World) (req_body : JsVal) (word key : jsstring)
    (r : ApiResponse) (result : JsVal) (t : jsstring) :
  valid_request req_body word ->
  configured w key ->
  external_reply w word key r ->
  status_2xx r ->
  JSON_parse (api_text r) = Some result ->
  generated_text result = JStr t ->
  t <> [] ->
  JSON_parse t = None ->
  fst (handle JSON_parse w req_body) =
    Normal (answer 500 (JObj [
      (js "error", str "Failed to parse JSON from Gemini");
      (js "raw", JStr t)])).
Proof.
  intros Hreq Hcfg Hreply Hok Hjson Htext Hne Hparse.
  pose proof (translate_try_reaches_extract JSON_parse _ _ _ _ _ _
                Hreq Hcfg Hreply Hok Hjson) as H.
  rewrite extract_and_answer_path in H.
  - rewrite Htext in H. apply truthy_JStr in Hne. rewrite Hne in H.
    rewrite (parse_and_answer_failure _ _ _ Hparse) in H.
    rewrite (handle_normal _ _ _ _ _ H). reflexivity.
  - apply generated_text_base. rewrite Htext. discriminate.
Qed.

(** C7. No exception leaves the handler: it always completes with an
    answer, and whenever the [try] block ends with an exception (one that
    no inner handler caught), the answer is 500 with the body
    [{error: "Internal server error"}], after the exception is logged. *)
Theorem exceptions_become_internal_error (w : World) (req_body : JsVal) :
  (exists resp tr, handle JSON_parse w req_body = (Normal resp, tr))
  /\ (forall e tr,
        translate_try JSON_parse w req_body [] = (Throw e, tr) ->
        handle JSON_parse w req_body =
          (Normal (answer 500 (error_body "Internal server error")),
           tr ++ [EvError [LVal (str "Server error:"); LErr e]])).
Proof.
  split.
  - destruct (translate_try JSON_parse w req_body []) as [[resp | e] tr] eqn:E.
    + exists resp, tr. now apply handle_normal.
    + eexists _, _. apply handle_throw. exact E.
  - intros e tr. apply handle_throw.
Qed.

(** C8. When [germanWord] is truthy and not a string (a number, [true], an
    array, an object), [germanWord.trim()] throws and the handler answers
    500 with [{error: "Internal server error"}], without calling the
    external API; the 400 validation answer is given only when
    [germanWord] is falsy or a string. *)
Theorem non_string_word_internal_error (w : World) (req_body v : JsVal) :
  get req_body (js "germanWord") = Normal v ->
  (truthy v = true -> (forall s, v <> JStr s) ->
     fst (handle JSON_parse w req_body)
       = Normal (answer 500 (error_body "Internal server error"))
     /\ fetch_calls (snd (handle JSON_parse w req_body)) = [])
  /\ (fst (handle JSON_parse w req_body)
        = Normal (answer 400 (error_body "germanWord is required")) ->
      truthy v = false \/ exists s, v = JStr s).
Proof.
  intros Hget.
  assert (H : truthy v = true -> (forall s, v <> JStr s) ->
              handle JSON_parse w req_body
              = (Normal (answer 500 (error_body "Internal server error")),
                 [EvError [LVal (str "Server error:"); LErr TypeError]])).
  { intros Ht Hns. run. rewrite Hget. run. rewrite Ht. run.
    destruct v; try reflexivity. now elim (Hns s). }
  split.
  - intros Ht Hns. rewrite (H Ht Hns). split; reflexivity.
  - intros H400. destruct (truthy v) eqn:Ht; [| now left]. right.
    destruct v as [| | b | n | s | elems | props];
      try (rewrite H in H400; [discriminate | reflexivity | intros ?; discriminate]).
    now exists s.
Qed.

(** C9 (amended). The parsed value is not checked against the schema: for
    every parsed value other than [null] whose [germanWord] and [details]
    convert to strings (missing fields always do, as do strings, numbers
    and booleans), the handler answers 200; a missing [germanWord] or
    [details] is rendered as [undefined] inside [german], [english] is the
    field [englishTranslation] or [undefined] when it is missing, and [raw]
    is the parsed value. *)
Theorem schema_not_enforced (w : World) (req_body : JsVal) (word key : jsstring)
    (r : ApiResponse) (result : JsVal) (t : jsstring) (parsedData : JsVal)
    (g d : jsstring) :
  valid_request req_body word ->
  configured w key ->
  external_reply w word key r ->
  status_2xx r ->
  JSON_parse (api_text r) = Some result ->
  generated_text result = JStr t ->
  t <> [] ->
  JSON_parse t = Some parsedData ->
  is_nullish parsedData = false ->
  ToString (member (js "germanWord") parsedData) = Some g ->
  ToString (member (js "details") parsedData) = Some d ->
  fst (handle JSON_parse w req_body) =
    Normal (answer 200 (JObj [
      (js "german", JStr (g ++ [10; 10] ++ js "(" ++ d ++ js ")"));
      (js "english", member (js "englishTranslation") parsedData);
      (js "raw", parsedData)]))
  /\ (member (js "germanWord") parsedData = JUndefined -> g = js "undefined")
  /\ (member (js "details") parsedData = JUndefined -> d = js "undefined").
Proof.
  intros Hreq Hcfg Hreply Hok Hjson Htext Hne Hparse Hnn Hg Hd.
  split; [| split].
  - pose proof (handle_parsed _ _ _ _ _ _ _ _
                  Hreq Hcfg Hreply Hok Hjson Htext Hne Hparse) as H.
    rewrite (build_response_ok _ g d _ Hnn Hg Hd) in H.
    rewrite (handle_normal _ _ _ _ _ H). reflexivity.
  - intros E. rewrite E in Hg. now inversion Hg.
  - intros E. rewrite E in Hd. now inversion Hd.
Qed.

(** C10. The details are concatenated unconditionally: when the parsed
    object has a string [germanWord] and its [details] is the empty string,
    the handler answers 200 and [german] is the word, two newlines and an
    empty pair of parentheses. *)
Theorem empty_details_empty_parentheses (w : World) (req_body : JsVal)
    (word key : jsstring) (r : ApiResponse) (result : JsVal) (t : jsstring)
    (props : list (jsstring * JsVal)) (g : jsstring) :
  valid_request req_body word ->
  configured w key ->
  external_reply w word key r ->
  status_2xx r ->
  JSON_parse (api_text r) = Some result ->
  generated_text result = JStr t ->
  t <> [] ->
  JSON_parse t = Some (JObj props) ->
  lookup (js "germanWord") props = Some (JStr g) ->
  lookup (js "details") props = Some (JStr []) ->
  fst (handle JSON_parse w req_body) =
    Normal (answer 200 (JObj [
      (js "german", JStr (g ++ [10; 10] ++ js "()"));
      (js "english", member (js "englishTranslation") (JObj props));
      (js "raw", JObj props)])).
Proof.
  intros Hreq Hcfg Hreply Hok Hjson Htext Hne Hparse Hg Hd.
  pose proof (handle_parsed _ _ _ _ _ _ _ _
                Hreq Hcfg Hreply Hok Hjson Htext Hne Hparse) as H.
  rewrite (build_response_ok (JObj props) g []) in H.
  - rewrite (handle_normal _ _ _ _ _ H). reflexivity.
  - reflexivity.
  - simpl. rewrite Hg. reflexivity.
  - simpl. rewrite Hd. reflexivity.
Qed.

End Specification.

(* ------------------------------------------------------------------ *)
(** ** The properties on concrete requests *)

Module Runs.
Import Fixture.

Ltac holds :=
  vm_compute;
  repeat match goal with
         | |- _ /\ _ => split
         | |- Forall _ _ => constructor
         end;
  try reflexivity; try discriminate.

(** The round trip of the specification. *)
Lemma translate_success_das_Haus :
  handle Ref.JSON_parse
    (world_replying 200 (reply_text (translation_text das_Haus the_house die_Haeuser)))
    (request Haus)
  = (Normal (answer 200 (JObj [
       (js "german", JStr (js "das Haus" ++ [10; 10] ++ js "(die H" ++ [228] ++ js "user)"));
       (js "english", JStr (js "the house"));
       (js "raw", JObj (translation_props das_Haus the_house die_Haeuser))])),
     trace_to_api Haus key).
Proof.
  apply (translate_success Ref.JSON_parse _ _ Haus key
           {| api_status := 200;
              api_text := reply_text (translation_text das_Haus the_house die_Haeuser) |}
           (reply_value (translation_text das_Haus the_house die_Haeuser))
           (translation_text das_Haus the_house die_Haeuser)
           (translation_props das_Haus the_house die_Haeuser)
           das_Haus the_house die_Haeuser); holds.
Defined.

Lemma validation_rejects_blank_word :
  fst (handle Ref.JSON_parse (world_replying 200 []) (request (js "   ")))
    = Normal (answer 400 (error_body "germanWord is required"))
  /\ fetch_calls (snd (handle Ref.JSON_parse (world_replying 200 []) (request (js "   "))))
     = [].
Proof.
  apply (validation_rejects_missing_word Ref.JSON_parse).
  - reflexivity.
  - right. exists (js "   "). split; [reflexivity | holds].
Defined.

Lemma missing_key_rejected_Haus :
  fst (handle Ref.JSON_parse (world_without_key 200 []) (request Haus))
    = Normal (answer 500 (error_body "Server misconfiguration: API key missing"))
  /\ fetch_calls (snd (handle Ref.JSON_parse (world_without_key 200 []) (request Haus)))
     = [].
Proof.
  apply (missing_key_rejected Ref.JSON_parse _ _ Haus).
  - holds.
  - left. reflexivity.
Defined.

Lemma upstream_429_mirrored :
  fst (handle Ref.JSON_parse (world_replying 429 (js "quota exceeded")) (request Haus))
  = Normal (answer 429 (JObj [
      (js "error", str "Gemini API call failed");
      (js "status", Ref.num 429);
      (js "details", JStr (js "quota exceeded"))])).
Proof.
  apply (upstream_status_mirrored Ref.JSON_parse _ _ Haus key
           {| api_status := 429; api_text := js "quota exceeded" |}).
  - holds.
  - holds.
  - holds.
  - unfold status_2xx. simpl. lia.
  - simpl. lia.
Defined.

Lemma missing_text_rejected_no_candidates :
  fst (handle Ref.JSON_parse
         (world_replying 200 (js "{" ++ Ref.q "candidates" ++ js ":[]}")) (request Haus))
  = Normal (answer 500 (error_body "Invalid response from Gemini API")).
Proof.
  apply (missing_text_rejected Ref.JSON_parse _ _ Haus key
           {| api_status := 200; api_text := js "{" ++ Ref.q "candidates" ++ js ":[]}" |}
           (JObj [(js "candidates", JArr [])])); holds.
Defined.

Lemma unparsable_text_returned_oops :
  fst (handle Ref.JSON_parse (world_replying 200 (reply_text (js "{oops"))) (request Haus))
  = Normal (answer 500 (JObj [
      (js "error", str "Failed to parse JSON from Gemini");
      (js "raw", JStr (js "{oops"))])).
Proof.
  apply (unparsable_text_returned Ref.JSON_parse _ _ Haus key
           {| api_status := 200; api_text := reply_text (js "{oops") |}
           (reply_value (js "{oops")) (js "{oops")); holds.
Defined.

Lemma fetch_rejected_internal_error :
  handle Ref.JSON_parse world_unreachable (request Haus)
  = (Normal (answer 500 (error_body "Internal server error")),
     trace_to_api Haus key ++ [EvError [LVal (str "Server error:"); LErr FetchError]]).
Proof.
  apply (proj2 (exceptions_become_internal_error Ref.JSON_parse
                  world_unreachable (request Haus))).
  reflexivity.
Defined.

Lemma number_word_internal_error :
  fst (handle Ref.JSON_parse (world_replying 200 []) (request_with (Ref.num 5)))
    = Normal (answer 500 (error_body "Internal server error"))
  /\ fetch_calls (snd (handle Ref.JSON_parse (world_replying 200 [])
                         (request_with (Ref.num 5)))) = [].
Proof.
  apply (proj1 (non_string_word_internal_error Ref.JSON_parse
                  (world_replying 200 []) (request_with (Ref.num 5)) (Ref.num 5)
                  eq_refl)).
  - reflexivity.
  - intros s. discriminate.
Defined.

Lemma schema_not_enforced_empty_object :
  fst (handle Ref.JSON_parse (world_replying 200 (reply_text (js "{}"))) (request Haus))
  = Normal (answer 200 (JObj [
      (js "german", JStr (js "undefined" ++ [10; 10] ++ js "(undefined)"));
      (js "english", JUndefined);
      (js "raw", JObj [])])).
Proof.
  apply (proj1 (schema_not_enforced Ref.JSON_parse
                  (world_replying 200 (reply_text (js "{}"))) (request Haus) Haus key
                  {| api_status := 200; api_text := reply_text (js "{}") |}
                  (reply_value (js "{}")) (js "{}") (JObj [])
                  (js "undefined") (js "undefined")
                  ltac:(holds) ltac:(holds) ltac:(holds) ltac:(holds) ltac:(holds)
                  ltac:(holds) ltac:(holds) ltac:(holds) ltac:(holds) ltac:(holds)
                  ltac:(holds))).
Defined.

Lemma empty_details_das_Haus :
  fst (handle Ref.JSON_parse
         (world_replying 200 (reply_text (translation_text das_Haus the_house [])))
         (request Haus))
  = Normal (answer 200 (JObj [
      (js "german", JStr (js "das Haus" ++ [10; 10] ++ js "()"));
      (js "english", JStr (js "the house"));
      (js "raw", JObj (translation_props das_Haus the_house []))])).
Proof.
  apply (empty_details_empty_parentheses Ref.JSON_parse _ _ Haus key
           {| api_status := 200;
              api_text := reply_text (translation_text das_Haus the_house []) |}
           (reply_value (translation_text das_Haus the_house []))
           (translation_text das_Haus the_house [])
           (translation_props das_Haus the_house []) das_Haus); holds.
Defined.

(** C2 as first stated fails for a request without a parsed body:
    [req.body] is [undefined], the field [germanWord] is absent, but the
    destructuring of line 19 throws and the answer is the one of the
    [catch] block, not the validation error. *)
Lemma bodyless_request_is_internal_error :
  let w := world_replying 200 [] in
  member (js "germanWord") (JUndefined : Ref.value) = JUndefined
  /\ fst (handle Ref.JSON_parse w JUndefined)
       = Normal (answer 500 (error_body "Internal server error"))
  /\ fst (handle Ref.JSON_parse w JUndefined)
       <> Normal (answer 400 (error_body "germanWord is required")).
Proof.
  cbv zeta. split; [| split].
  - reflexivity.
  - vm_compute. reflexivity.
  - vm_compute. discriminate.
Qed.

(** C4 as first stated fails for a status that express does not send: a
    reply with status 99 is not 2xx, but [res.status(99).json(...)] throws
    and the answer is the one of the [catch] block, with status 500. *)
Lemma status_99_is_internal_error :
  let w := world_replying 99 (js "odd") in
  let r := {| api_status := 99; api_text := js "odd" |} in
  (valid_request (request Haus) Haus
   /\ configured w key
   /\ external_reply w Haus key r
   /\ ~ status_2xx r)
  /\ fst (handle Ref.JSON_parse w (request Haus))
       = Normal (answer 500 (error_body "Internal server error"))
  /\ (forall resp, fst (handle Ref.JSON_parse w (request Haus)) = Normal resp ->
       res_status resp <> api_status r).
Proof.
  cbv zeta. split; [| split].
  - repeat split; try (vm_compute; reflexivity); try (vm_compute; discriminate).
    unfold status_2xx. simpl. lia.
  - vm_compute. reflexivity.
  - intros resp. vm_compute. intros H. inversion H. discriminate.
Qed.

(** C5 as first stated fails when the JSON body of a 2xx reply is [null]:
    the body lacks the generated text, but reading [candidates] from it
    throws, and the answer is the one of the [catch] block, not the
    structural error. *)
Lemma null_reply_is_internal_error :
  let w := world_replying 200 (js "null") in
  let r := {| api_status := 200; api_text := js "null" |} in
  (valid_request (request Haus) Haus
   /\ configured w key
   /\ external_reply w Haus key r
   /\ status_2xx r
   /\ Ref.JSON_parse (api_text r) = Some JNull
   /\ truthy (generated_text (JNull : Ref.value)) = false)
  /\ fst (handle Ref.JSON_parse w (request Haus))
       = Normal (answer 500 (error_body "Internal server error"))
  /\ fst (handle Ref.JSON_parse w (request Haus))
       <> Normal (answer 500 (error_body "Invalid response from Gemini API")).
Proof.
  cbv zeta. split; [| split].
  - holds.
  - vm_compute. reflexivity.
  - vm_compute. discriminate.
Qed.

(** C9 as first stated fails when the generated text is [null]: it parses,
    the parsed value has none of the three fields, but reading a field of
    [null] throws and the answer is 500, not 200. *)
Lemma null_parsed_value_is_internal_error :
  let w := world_replying 200 (reply_text (js "null")) in
  let r := {| api_status := 200; api_text := reply_text (js "null") |} in
  (valid_request (request Haus) Haus
   /\ configured w key
   /\ external_reply w Haus key r
   /\ status_2xx r
   /\ Ref.JSON_parse (api_text r) = Some (reply_value (js "null"))
   /\ generated_text (reply_value (js "null")) = JStr (js "null")
   /\ Ref.JSON_parse (js "null") = Some JNull
   /\ member (js "germanWord") (JNull : Ref.value) = JUndefined
   /\ member (js "englishTranslation") (JNull : Ref.value) = JUndefined
   /\ member (js "details") (JNull : Ref.value) = JUndefined)
  /\ fst (handle Ref.JSON_parse w (request Haus))
       = Normal (answer 500 (error_body "Internal server error"))
  /\ (forall resp, fst (handle Ref.JSON_parse w (request Haus)) = Normal resp ->
       res_status resp <> 200%Z).
Proof.
  cbv zeta. split; [| split].
  - holds.
  - vm_compute. reflexivity.
  - intros resp. vm_compute. intros H. inversion H. discriminate.
Qed.

End Runs.

(* ------------------------------------------------------------------ *)
(** ** Every path of the handler *)

(** Unfolds the monad and leaves the conversions to strings folded. *)
Ltac step :=
  cbv beta iota zeta delta
    [attempt bind lift ret respond console_log console_error emit tostr
     api_json JSON_parse_val answer].

Section Paths.
Context {Num : JsNumber}.
Variable JSON_parse : jsstring -> option JsVal.

Lemma fetch_calls_app (a b : list event) :
  fetch_calls (a ++ b) = fetch_calls a ++ fetch_calls b.
Proof. apply filter_app. Qed.

Lemma fetch_calls_error (tr : list event) (args : list logarg) :
  fetch_calls (tr ++ [EvError args]) = fetch_calls tr.
Proof. rewrite fetch_calls_app. simpl. apply app_nil_r. Qed.

Lemma ends_within_weaken (ks ks' : list kind) (tr : list event)
    (o : completion HttpResponse * list event) :
  incl ks ks' -> ends_within ks tr o -> ends_within ks' tr o.
Proof.
  intros Hincl [Hcalls Hshape]. split; [exact Hcalls |].
  destruct (fst o); [| exact I].
  destruct Hshape as [k [Hin Hk]]. exists k. split; [now apply Hincl | exact Hk].
Qed.

(** Lines 104-112. *)
Lemma build_response_throw (parsedData : JsVal) (tr : list event) :
  is_nullish parsedData = true
  \/ ToString (member (js "germanWord") parsedData) = None
  \/ ToString (member (js "details") parsedData) = None ->
  build_response parsedData tr = (Throw TypeError, tr).
Proof.
  intros H. destruct (is_nullish parsedData) eqn:Hn.
  - destruct parsedData; try discriminate; reflexivity.
  - destruct H as [H | H]; [discriminate |].
    unfold build_response.
    cbv beta iota zeta delta [bind lift ret respond tostr answer].
    rewrite !(get_member _ _ Hn). cbv beta iota.
    destruct (ToString (member (js "germanWord") parsedData)) as [g |]; [| reflexivity].
    destruct H as [H | H]; [discriminate |].
    cbv beta iota. rewrite H. reflexivity.
Qed.

Lemma build_response_ends (parsedData : JsVal) (tr : list event) :
  ends_within [KSuccess] tr (build_response parsedData tr).
Proof.
  destruct (is_nullish parsedData) eqn:Hn.
  { rewrite build_response_throw by now left. now split. }
  destruct (ToString (member (js "germanWord") parsedData)) as [g |] eqn:Hg.
  2:{ rewrite build_response_throw by (right; now left). now split. }
  destruct (ToString (member (js "details") parsedData)) as [d |] eqn:Hd.
  2:{ rewrite build_response_throw by (right; now right). now split. }
  rewrite (build_response_ok _ g d _ Hn Hg Hd). split; [reflexivity |].
  exists KSuccess. split; [now left | apply shape_success].
Qed.

(** Lines 93-102: an exception of [JSON.parse], the TypeError of converting
    its argument included, is answered with the text as [raw]. *)
Lemma parse_and_answer_throw (jsonText : JsVal) (tr : list event) :
  ToString jsonText = None
  \/ (exists s, ToString jsonText = Some s /\ JSON_parse s = None) ->
  exists e,
    parse_and_answer JSON_parse jsonText tr =
      (Normal (answer 500 (JObj [
          (js "error", str "Failed to parse JSON from Gemini");
          (js "raw", jsonText)])),
       tr ++ [EvError [LVal (str "Error parsing JSON from Gemini:"); LErr e;
                       LVal (str "Raw text:"); LVal jsonText]]).
Proof.
  intros [H | [s [H Hp]]]; unfold parse_and_answer; step; rewrite H; step.
  - now exists TypeError.
  - rewrite Hp. now exists SyntaxError.
Qed.

Lemma parse_and_answer_parsed (jsonText : JsVal) (s : jsstring) (parsedData : JsVal)
    (tr : list event) :
  ToString jsonText = Some s ->
  JSON_parse s = Some parsedData ->
  parse_and_answer JSON_parse jsonText tr = build_response parsedData tr.
Proof.
  intros H Hp. unfold parse_and_answer. step. rewrite H. step. rewrite Hp. reflexivity.
Qed.

Lemma parse_and_answer_ends (jsonText : JsVal) (tr : list event) :
  truthy jsonText = true ->
  ends_within [KUnparsable; KSuccess] tr (parse_and_answer JSON_parse jsonText tr).
Proof.
  intros Ht.
  assert (Hfail : forall e,
    ends_within [KUnparsable; KSuccess] tr
      (Normal (answer 500 (JObj [
          (js "error", str "Failed to parse JSON from Gemini");
          (js "raw", jsonText)])),
       tr ++ [EvError [LVal (str "Error parsing JSON from Gemini:"); LErr e;
                       LVal (str "Raw text:"); LVal jsonText]])).
  { intros e. split; [apply fetch_calls_error |].
    exists KUnparsable. split; [now left | now apply shape_unparsable]. }
  destruct (ToString jsonText) as [s |] eqn:Hs.
  - destruct (JSON_parse s) as [parsedData |] eqn:Hp.
    + rewrite (parse_and_answer_parsed _ _ _ _ Hs Hp).
      apply (ends_within_weaken [KSuccess]); [| apply build_response_ends].
      intros k [<- | []]. right. now left.
    + destruct (parse_and_answer_throw jsonText tr) as [e ->]; [| apply Hfail].
      right. now exists s.
  - destruct (parse_and_answer_throw jsonText tr) as [e ->]; [| apply Hfail].
    now left.
Qed.

(** Lines 84-112. *)
Lemma extract_and_answer_null (result : JsVal) (tr : list event) :
  is_nullish result = true ->
  extract_and_answer JSON_parse result tr = (Throw TypeError, tr).
Proof.
  intros H. destruct result; try discriminate; reflexivity.
Qed.

Lemma extract_and_answer_ends (result : JsVal) (tr : list event) :
  ends_within [KInvalidReply; KUnparsable; KSuccess] tr
    (extract_and_answer JSON_parse result tr).
Proof.
  destruct (is_nullish result) eqn:Hn.
  { rewrite extract_and_answer_null by assumption. now split. }
  rewrite (extract_and_answer_path _ _ _ Hn).
  destruct (truthy (generated_text result)) eqn:Ht.
  - apply (ends_within_weaken [KUnparsable; KSuccess]);
      [| now apply parse_and_answer_ends].
    intros k Hk. now right.
  - split; [apply fetch_calls_error |].
    exists KInvalidReply. split; [now left | apply shape_invalid_reply].
Qed.

(** Lines 19-23 and 114-117. *)
Lemma handle_unreadable (w : World) (req_body : JsVal) :
  is_nullish req_body = true ->
  handle JSON_parse w req_body =
    (Normal (answer 500 (error_body "Internal server error")),
     [EvError [LVal (str "Server error:"); LErr TypeError]]).
Proof.
  intros H. destruct req_body; try discriminate; reflexivity.
Qed.

Lemma handle_rejects (w : World) (req_body v : JsVal) :
  get req_body (js "germanWord") = Normal v ->
  truthy v = false \/ (exists s, v = JStr s /\ trim s = []) ->
  handle JSON_parse w req_body =
    (Normal (answer 400 (error_body "germanWord is required")), []).
Proof.
  intros Hget Hv. run. rewrite Hget. run.
  destruct (truthy v) eqn:Ht.
  - destruct Hv as [Hv | [s [-> Hs]]]; [discriminate |].
    run. rewrite Hs. reflexivity.
  - reflexivity.
Qed.

Lemma handle_not_string (w : World) (req_body v : JsVal) :
  get req_body (js "germanWord") = Normal v ->
  truthy v = true ->
  (forall s, v <> JStr s) ->
  handle JSON_parse w req_body =
    (Normal (answer 500 (error_body "Internal server error")),
     [EvError [LVal (str "Server error:"); LErr TypeError]]).
Proof.
  intros Hget Ht Hns. run. rewrite Hget. run. rewrite Ht. run.
  destruct v; try reflexivity. now elim (Hns s).
Qed.

Lemma valid_request_truthy (req_body : JsVal) (word : jsstring) :
  valid_request req_body word ->
  truthy (JStr word) = true /\ truthy (JStr (trim word)) = true.
Proof.
  intros [_ Htrim]. split; apply truthy_JStr; [| exact Htrim].
  intros ->. now apply Htrim.
Qed.

(** Lines 54-58. *)
Lemma handle_no_key (w : World) (req_body : JsVal) (word : jsstring) :
  valid_request req_body word ->
  GEMINI_API_KEY w = None \/ GEMINI_API_KEY w = Some [] ->
  handle JSON_parse w req_body =
    (Normal (answer 500 (error_body "Server misconfiguration: API key missing")),
     [EvLog [LVal (str "Received word from frontend:"); LVal (JStr word)];
      EvError [LVal (str "GEMINI_API_KEY is missing in .env")]]).
Proof.
  intros Hreq Hkey. destruct (valid_request_truthy _ _ Hreq) as [Hword Htrim].
  destruct Hreq as [Hget _].
  run. rewrite Hget. run. rewrite Hword. run. rewrite Htrim. run.
  destruct Hkey as [-> | ->]; reflexivity.
Qed.

(** Lines 60-81: the one call of the external API and what each outcome
    of it leads to. *)
Lemma translate_try_to_call (w : World) (req_body : JsVal) (word key : jsstring) :
  valid_request req_body word ->
  configured w key ->
  translate_try JSON_parse w req_body [] =
    match fetch w (apiUrl key) (fetch_init (js "German word: " ++ word)) with
    | Rejected => (Throw FetchError, trace_to_api word key)
    | Replied r =>
        if api_ok r then
          match JSON_parse (api_text r) with
          | Some result => extract_and_answer JSON_parse result (trace_to_api word key)
          | None => (Throw FetchError, trace_to_api word key)
          end
        else
          respond (api_status r) (JObj [
              (js "error", str "Gemini API call failed");
              (js "status", JNum (num_of_Z (api_status r)));
              (js "details", JStr (api_text r))])
            (trace_to_api word key
             ++ [EvError [LVal (str "Gemini API error:");
                          LVal (JNum (num_of_Z (api_status r)));
                          LVal (JStr (api_text r))]])
    end.
Proof.
  intros Hreq Hcfg.
  destruct (fetch w (apiUrl key) (fetch_init (js "German word: " ++ word)))
    as [| r] eqn:Hf.
  - destruct (valid_request_truthy _ _ Hreq) as [Hword Htrim].
    destruct Hreq as [Hget _]. destruct Hcfg as [Hkey Hne].
    apply truthy_JStr in Hne.
    run. rewrite Hget. run. rewrite Hword. run. rewrite Htrim. run.
    rewrite Hkey. run. rewrite Hne. run. rewrite Hf. reflexivity.
  - rewrite (translate_try_reaches_api JSON_parse _ _ _ _ _ Hreq Hcfg Hf).
    destruct (api_ok r); [| reflexivity].
    step. destruct (JSON_parse (api_text r)); reflexivity.
Qed.

Lemma trace_to_api_calls (word key : jsstring) :
  fetch_calls (trace_to_api word key)
  = [EvFetch (apiUrl key) (fetch_init (js "German word: " ++ word))].
Proof. reflexivity. Qed.

(** Every request is handled along one of the paths of [handled], and
    answered with the answer of that path. *)
Lemma handle_paths (w : World) (req_body : JsVal) :
  exists resp k,
    fst (handle JSON_parse w req_body) = Normal resp
    /\ answer_shape k resp
    /\ handled w req_body k (fetch_calls (snd (handle JSON_parse w req_body))).
Proof.
  destruct (is_nullish req_body) eqn:Hb.
  { rewrite handle_unreadable by assumption.
    eexists _, KInternal. split; [reflexivity |].
    split; [apply shape_internal | now apply handled_unreadable]. }
  pose proof (get_member req_body (js "germanWord") Hb) as Hget.
  set (v := member (js "germanWord") req_body) in Hget.
  destruct (truthy v) eqn:Hv.
  2:{ rewrite (handle_rejects _ _ v Hget) by now left.
      eexists _, KValidation. split; [reflexivity |].
      split; [apply shape_validation | now apply (handled_falsy _ _ v)]. }
  assert (Hstr : (exists s, v = JStr s) \/ (forall s, v <> JStr s)).
  { destruct v; try (right; intros ?; discriminate). left. now eexists. }
  destruct Hstr as [[word Hword] | Hns].
  2:{ rewrite (handle_not_string _ _ v Hget Hv Hns).
      eexists _, KInternal. split; [reflexivity |].
      split; [apply shape_internal | now apply (handled_not_string _ _ v)]. }
  rewrite Hword in Hget, Hv. clear Hword.
  destruct (trim word) as [| c t] eqn:Htrim.
  { rewrite (handle_rejects _ _ (JStr word) Hget) by (right; now exists word).
    eexists _, KValidation. split; [reflexivity |].
    split; [apply shape_validation |].
    apply (handled_blank _ _ word); try assumption. now apply truthy_JStr. }
  assert (Hreq : valid_request req_body word).
  { split; [exact Hget |]. rewrite Htrim. discriminate. }
  assert (Hkey : (GEMINI_API_KEY w = None \/ GEMINI_API_KEY w = Some [])
                 \/ exists key, configured w key).
  { unfold configured. destruct (GEMINI_API_KEY w) as [[| x key] |].
    - left. now right.
    - right. exists (x :: key). split; [reflexivity | discriminate].
    - left. now left. }
  destruct Hkey as [Hkey | [key Hcfg]].
  { rewrite (handle_no_key _ _ word Hreq Hkey).
    eexists _, KNoKey. split; [reflexivity |].
    split; [apply shape_no_key | now apply (handled_no_key _ _ word)]. }
  pose proof (translate_try_to_call w req_body word key Hreq Hcfg) as Htry.
  assert (Hdone : forall resp tr k,
    handle JSON_parse w req_body = (Normal resp, tr) ->
    fetch_calls tr = fetch_calls (trace_to_api word key) ->
    answer_shape k resp ->
    In k [KUpstream; KInvalidReply; KUnparsable; KSuccess; KInternal] ->
    exists resp k,
      fst (handle JSON_parse w req_body) = Normal resp
      /\ answer_shape k resp
      /\ handled w req_body k (fetch_calls (snd (handle JSON_parse w req_body)))).
  { intros resp tr k -> Hcalls Hshape Hin. exists resp, k.
    split; [reflexivity |]. split; [exact Hshape |].
    cbn [snd]. rewrite Hcalls, trace_to_api_calls.
    now apply handled_called. }
  assert (Hthrow : forall e tr,
    translate_try JSON_parse w req_body [] = (Throw e, tr) ->
    fetch_calls tr = fetch_calls (trace_to_api word key) ->
    exists resp k,
      fst (handle JSON_parse w req_body) = Normal resp
      /\ answer_shape k resp
      /\ handled w req_body k (fetch_calls (snd (handle JSON_parse w req_body)))).
  { intros e tr Hthrown Hcalls.
    apply (Hdone _ _ KInternal (handle_throw JSON_parse _ _ _ _ Hthrown)).
    - now rewrite fetch_calls_error.
    - apply shape_internal.
    - simpl. tauto. }
  destruct (fetch w (apiUrl key) (fetch_init (js "German word: " ++ word)))
    as [| r].
  { now apply (Hthrow _ _ Htry). }
  destruct (api_ok r) eqn:Hok.
  2:{ destruct (valid_status (api_status r)) eqn:Hvalid.
      - apply valid_status_range in Hvalid.
        rewrite (respond_valid _ _ _ Hvalid) in Htry.
        apply (Hdone _ _ KUpstream (handle_normal JSON_parse _ _ _ _ Htry)).
        + now rewrite fetch_calls_error.
        + apply shape_upstream; [| exact Hvalid].
          intros H2xx. apply api_ok_2xx in H2xx. congruence.
        + simpl. tauto.
      - rewrite respond_invalid in Htry.
        + apply (Hthrow _ _ Htry). now rewrite fetch_calls_error.
        + intros Hin. apply valid_status_range in Hin. congruence. }
  destruct (JSON_parse (api_text r)) as [result |].
  2:{ now apply (Hthrow _ _ Htry). }
  destruct (extract_and_answer_ends result (trace_to_api word key)) as [Hcalls Hshape].
  rewrite <- Htry in Hcalls, Hshape.
  destruct (translate_try JSON_parse w req_body []) as [[resp | e] tr] eqn:E.
  - destruct Hshape as [k [Hin Hk]].
    apply (Hdone _ _ k (handle_normal JSON_parse _ _ _ _ E) Hcalls Hk).
    simpl in *. tauto.
  - now apply (Hthrow e tr).
Qed.

End Paths.

(* ------------------------------------------------------------------ *)
(** ** What holds of every request, and the remaining paths *)

Section Coverage.
Context {Num : JsNumber}.
Variable JSON_parse : jsstring -> option JsVal.

Lemma validation_shape_kind (k : kind) :
  answer_shape k (answer 400 (error_body "germanWord is required")) ->
  k = KValidation.
Proof.
  unfold answer, error_body. inversion 1; reflexivity.
Qed.

(** X1. Whatever the request, the environment and the external service
    are, the handler completes with an answer, and the answer is one of
    the seven that the source builds: the validation error, the missing-key
    error, the mirrored upstream error (never with a 2xx status), the
    invalid-reply error, the parse error with [raw], the success answer, or
    the internal error. *)
Theorem every_answer_has_a_known_shape (w : World) (req_body : JsVal) :
  exists resp tr k,
    handle JSON_parse w req_body = (Normal resp, tr) /\ answer_shape k resp.
Proof.
  destruct (handle_paths JSON_parse w req_body) as [resp [k [Hfst [Hshape _]]]].
  destruct (handle JSON_parse w req_body) as [c tr]. simpl in Hfst. subst c.
  now exists resp, tr, k.
Qed.

(** X2. The handler calls the external API at most once per request: there
    is no retry on any path. *)
Theorem at_most_one_external_call (w : World) (req_body : JsVal) :
  (List.length (fetch_calls (snd (handle JSON_parse w req_body))) <= 1)%nat.
Proof.
  destruct (handle_paths JSON_parse w req_body) as [resp [k [_ [_ Hh]]]].
  destruct Hh; simpl; lia.
Qed.

(** The members of the payload that a call carries. *)
Lemma fetch_init_members (userQuery : jsstring) :
  init_method (fetch_init userQuery) = js "POST"
  /\ init_headers (fetch_init userQuery)
     = [(js "Content-Type", js "application/json")]
  /\ member (js "text")
       (first (member (js "parts")
         (first (member (js "contents") (init_body (fetch_init userQuery))))))
     = JStr userQuery
  /\ member (js "responseMimeType")
       (member (js "generationConfig") (init_body (fetch_init userQuery)))
     = str "application/json"
  /\ member (js "required")
       (member (js "responseSchema")
         (member (js "generationConfig") (init_body (fetch_init userQuery))))
     = JArr [str "germanWord"; str "englishTranslation"; str "details"].
Proof. repeat split; reflexivity. Qed.

Lemma apiUrl_written_out (key : jsstring) :
  apiUrl key
  = js "https://generativelanguage.googleapis.com/v1beta/models/gemini-2.5-flash-preview-09-2025:generateContent?key="
    ++ key.
Proof. reflexivity. Qed.

(** X3. Whenever the handler calls the external API, the request carried a
    valid word and the credential was present.  The URL is
    [https://generativelanguage.googleapis.com/v1beta/models/gemini-2.5-flash-preview-09-2025:generateContent?key=]
    followed by the credential; the method is POST with the header
    [Content-Type: application/json]; in the payload,
    [contents[0].parts[0].text] is ["German word: "] followed by the word
    as it was received (not trimmed), [generationConfig.responseMimeType]
    is [application/json], and the schema requires [germanWord],
    [englishTranslation] and [details]. *)
Theorem external_call_only_when_valid (w : World) (req_body : JsVal)
    (url : jsstring) (init : FetchInit) :
  In (EvFetch url init) (snd (handle JSON_parse w req_body)) ->
  exists word key,
    valid_request req_body word
    /\ configured w key
    /\ url = js "https://generativelanguage.googleapis.com/v1beta/models/gemini-2.5-flash-preview-09-2025:generateContent?key="
             ++ key
    /\ init_method init = js "POST"
    /\ init_headers init = [(js "Content-Type", js "application/json")]
    /\ member (js "text")
         (first (member (js "parts")
           (first (member (js "contents") (init_body init)))))
       = JStr (js "German word: " ++ word)
    /\ member (js "responseMimeType")
         (member (js "generationConfig") (init_body init))
       = str "application/json"
    /\ member (js "required")
         (member (js "responseSchema")
           (member (js "generationConfig") (init_body init)))
       = JArr [str "germanWord"; str "englishTranslation"; str "details"].
Proof.
  intros Hin.
  assert (Hcall : In (EvFetch url init)
                    (fetch_calls (snd (handle JSON_parse w req_body)))).
  { apply filter_In. split; [exact Hin | reflexivity]. }
  destruct (handle_paths JSON_parse w req_body) as [resp [k [_ [_ Hh]]]].
  destruct Hh as [| | | | | word key k Hreq Hcfg _]; try (now elim Hcall).
  destruct Hcall as [Heq | []]. inversion Heq.
  exists word, key. split; [exact Hreq |]. split; [exact Hcfg |].
  split; [apply apiUrl_written_out |].
  apply fetch_init_members.
Qed.

(** X4. Once the field is read from the request body, the validation
    answer (400, [germanWord is required]) is given exactly when
    [germanWord] is falsy ([undefined], [null], [false], a zero, the empty
    string) or a string of white space only. *)
Theorem validation_answer_iff (w : World) (req_body v : JsVal) :
  get req_body (js "germanWord") = Normal v ->
  (fst (handle JSON_parse w req_body)
     = Normal (answer 400 (error_body "germanWord is required"))
   <-> truthy v = false \/ exists s, v = JStr s /\ whitespace_only s).
Proof.
  intros Hget. split.
  - intros H400.
    destruct (handle_paths JSON_parse w req_body) as [resp [k [Hfst [Hshape Hh]]]].
    rewrite H400 in Hfst. inversion Hfst; subst resp.
    apply validation_shape_kind in Hshape. subst k.
    remember KValidation as k eqn:Hk.
    destruct Hh as [Hnull | v' Hget' Hv' | s Hget' _ Hs | | |]; try discriminate.
    + left. congruence.
    + right. exists s. split; [congruence | now apply trim_nil_iff].
    + match goal with H : In _ _ |- _ => simpl in H; intuition congruence end.
  - intros Hv. rewrite (handle_rejects JSON_parse w _ v Hget); [reflexivity |].
    destruct Hv as [Hv | [s [-> Hs]]]; [now left |].
    right. exists s. split; [reflexivity | now apply trim_whitespace].
Qed.

(** X5. When the call of the external API fails (the promise of [fetch] is
    rejected), the handler answers 500 [Internal server error]; the call
    was made once and the failure is logged. *)
Theorem network_failure_internal_error (w : World) (req_body : JsVal)
    (word key : jsstring) :
  valid_request req_body word ->
  configured w key ->
  fetch w (apiUrl key) (fetch_init (js "German word: " ++ word)) = Rejected ->
  handle JSON_parse w req_body =
    (Normal (answer 500 (error_body "Internal server error")),
     trace_to_api word key ++ [EvError [LVal (str "Server error:"); LErr FetchError]]).
Proof.
  intros Hreq Hcfg Hf. apply handle_throw.
  rewrite (translate_try_to_call JSON_parse _ _ _ _ Hreq Hcfg), Hf. reflexivity.
Qed.

(** X6. When the external API replies 2xx with a body that is not JSON,
    [apiResponse.json()] throws and the handler answers 500
    [Internal server error]. *)
Theorem non_json_reply_internal_error (w : World) (req_body : JsVal)
    (word key : jsstring) (r : ApiResponse) :
  valid_request req_body word ->
  configured w key ->
  external_reply w word key r ->
  status_2xx r ->
  JSON_parse (api_text r) = None ->
  handle JSON_parse w req_body =
    (Normal (answer 500 (error_body "Internal server error")),
     trace_to_api word key ++ [EvError [LVal (str "Server error:"); LErr FetchError]]).
Proof.
  intros Hreq Hcfg Hreply Hok Hjson. apply handle_throw.
  rewrite (translate_try_to_call JSON_parse _ _ _ _ Hreq Hcfg), Hreply.
  apply api_ok_2xx in Hok. rewrite Hok, Hjson. reflexivity.
Qed.

(** X7. When the external API replies 2xx and the JSON body is [null],
    reading [result.candidates] throws and the handler answers 500
    [Internal server error]. *)
Theorem null_reply_internal_error (w : World) (req_body : JsVal)
    (word key : jsstring) (r : ApiResponse) (result : JsVal) :
  valid_request req_body word ->
  configured w key ->
  external_reply w word key r ->
  status_2xx r ->
  JSON_parse (api_text r) = Some result ->
  is_nullish result = true ->
  handle JSON_parse w req_body =
    (Normal (answer 500 (error_body "Internal server error")),
     trace_to_api word key ++ [EvError [LVal (str "Server error:"); LErr TypeError]]).
Proof.
  intros Hreq Hcfg Hreply Hok Hjson Hnull. apply handle_throw.
  rewrite (translate_try_to_call JSON_parse _ _ _ _ Hreq Hcfg), Hreply.
  apply api_ok_2xx in Hok. rewrite Hok, Hjson.
  now apply extract_and_answer_null.
Qed.

(** X8. When the generated text parses to [null], or to a value whose
    [germanWord] or [details] cannot be converted to a string (an object
    with a [toString] member, or an array holding one), building
    [fullGerman] throws and the handler answers 500
    [Internal server error]. *)
Theorem unprintable_fields_internal_error (w : World) (req_body : JsVal)
    (word key : jsstring) (r : ApiResponse) (result : JsVal) (t : jsstring)
    (parsedData : JsVal) :
  valid_request req_body word ->
  configured w key ->
  external_reply w word key r ->
  status_2xx r ->
  JSON_parse (api_text r) = Some result ->
  generated_text result = JStr t ->
  t <> [] ->
  JSON_parse t = Some parsedData ->
  is_nullish parsedData = true
  \/ ToString (member (js "germanWord") parsedData) = None
  \/ ToString (member (js "details") parsedData) = None ->
  handle JSON_parse w req_body =
    (Normal (answer 500 (error_body "Internal server error")),
     trace_to_api word key ++ [EvError [LVal (str "Server error:"); LErr TypeError]]).
Proof.
  intros Hreq Hcfg Hreply Hok Hjson Htext Hne Hparse Hbad. apply handle_throw.
  rewrite (handle_parsed JSON_parse _ _ _ _ _ _ _ _
             Hreq Hcfg Hreply Hok Hjson Htext Hne Hparse).
  now apply build_response_throw.
Qed.

(** X9. Whenever the generated text is a truthy value of any type on which
    [JSON.parse] throws (its conversion to a string fails, or the string
    is not JSON), the handler answers 500 and [raw] is that value itself:
    an array or an object is returned as it is, not as a string. *)
Theorem raw_is_the_text_value (w : World) (req_body : JsVal)
    (word key : jsstring) (r : ApiResponse) (result : JsVal) :
  valid_request req_body word ->
  configured w key ->
  external_reply w word key r ->
  status_2xx r ->
  JSON_parse (api_text r) = Some result ->
  truthy (generated_text result) = true ->
  ToString (generated_text result) = None
  \/ (exists s, ToString (generated_text result) = Some s /\ JSON_parse s = None) ->
  fst (handle JSON_parse w req_body) =
    Normal (answer 500 (JObj [
      (js "error", str "Failed to parse JSON from Gemini");
      (js "raw", generated_text result)])).
Proof.
  intros Hreq Hcfg Hreply Hok Hjson Ht Hthrows.
  pose proof (translate_try_reaches_extract JSON_parse _ _ _ _ _ _
                Hreq Hcfg Hreply Hok Hjson) as H.
  rewrite extract_and_answer_path, Ht in H.
  - destruct (parse_and_answer_throw JSON_parse (generated_text result)
                (trace_to_api word key) Hthrows) as [e He].
    rewrite He in H. rewrite (handle_normal _ _ _ _ _ H). reflexivity.
  - apply generated_text_base. now apply truthy_defined.
Qed.

(** X10. When the request body is [null] or [undefined] (nothing was
    parsed into [req.body]), reading [germanWord] from it throws and the
    handler answers 500 [Internal server error], not the validation error,
    without calling the external API. *)
Theorem unreadable_body_internal_error (w : World) (req_body : JsVal) :
  is_nullish req_body = true ->
  fst (handle JSON_parse w req_body)
    = Normal (answer 500 (error_body "Internal server error"))
  /\ fetch_calls (snd (handle JSON_parse w req_body)) = [].
Proof.
  intros H. rewrite (handle_unreadable JSON_parse w _ H). split; reflexivity.
Qed.

(** X11. A client can tell success from failure by the status or by the
    body: the answer either has status 200 and the three members [german],
    [english], [raw] without an [error] member, or has a status other than
    200 and an [error] member that is a string. *)
Theorem error_member_iff_not_success (w : World) (req_body : JsVal) :
  exists resp,
    fst (handle JSON_parse w req_body) = Normal resp
    /\ ((res_status resp = 200%Z
         /\ member (js "error") (res_body resp) = JUndefined
         /\ exists g d english parsedData,
              res_body resp = JObj [(js "german", JStr (fullGerman_of g d));
                                    (js "english", english);
                                    (js "raw", parsedData)])
        \/ (res_status resp <> 200%Z
            /\ exists msg, member (js "error") (res_body resp) = JStr msg)).
Proof.
  destruct (handle_paths JSON_parse w req_body) as [resp [k [Hfst [Hshape _]]]].
  exists resp. split; [exact Hfst |].
  destruct Hshape;
    try (right; split; [simpl; lia | eexists; reflexivity]).
  left. split; [reflexivity |]. split; [reflexivity |].
  now exists g, d, english, parsedData.
Qed.

Lemma success_shape_kind (k : kind) (resp : HttpResponse) :
  answer_shape k resp -> res_status resp = 200%Z -> k = KSuccess.
Proof.
  intros Hshape. destruct Hshape as [| | status text Hnot Hrange | | | |]; simpl;
    intros E; try discriminate; try reflexivity.
  exfalso. lia.
Qed.

(** X12. A 200 answer is never given without the external API: when the
    handler answers 200, the request carried a valid word, the credential
    was present, and exactly one call was made, for that word. *)
Theorem success_needs_one_call (w : World) (req_body : JsVal) (resp : HttpResponse) :
  fst (handle JSON_parse w req_body) = Normal resp ->
  res_status resp = 200%Z ->
  exists word key,
    valid_request req_body word
    /\ configured w key
    /\ fetch_calls (snd (handle JSON_parse w req_body))
       = [EvFetch (apiUrl key) (fetch_init (js "German word: " ++ word))].
Proof.
  intros Hfst H200.
  destruct (handle_paths JSON_parse w req_body) as [resp' [k [Hfst' [Hshape Hh]]]].
  rewrite Hfst in Hfst'. inversion Hfst'; subst resp'.
  pose proof (success_shape_kind _ _ Hshape H200) as Hk.
  destruct Hh; try discriminate.
  now exists word, key.
Qed.

End Coverage.

(* ------------------------------------------------------------------ *)
(** ** The remaining paths on concrete requests *)

Module PathRuns.
Import Fixture.

Ltac holds :=
  vm_compute;
  repeat match goal with
         | |- _ /\ _ => split
         end;
  try reflexivity; try discriminate.

Lemma call_after_429_is_for_Haus :
  exists word key0,
    valid_request (request Haus) word
    /\ configured (world_replying 429 (js "quota exceeded")) key0
    /\ apiUrl key
       = js "https://generativelanguage.googleapis.com/v1beta/models/gemini-2.5-flash-preview-09-2025:generateContent?key="
         ++ key0
    /\ init_method (@fetch_init Ref.RefNum (js "German word: " ++ Haus)) = js "POST"
    /\ init_headers (@fetch_init Ref.RefNum (js "German word: " ++ Haus))
       = [(js "Content-Type", js "application/json")]
    /\ member (js "text")
         (first (member (js "parts")
           (first (member (js "contents")
             (init_body (@fetch_init Ref.RefNum (js "German word: " ++ Haus)))))))
       = JStr (js "German word: " ++ word)
    /\ member (js "responseMimeType")
         (member (js "generationConfig")
           (init_body (@fetch_init Ref.RefNum (js "German word: " ++ Haus))))
       = str "application/json"
    /\ member (js "required")
         (member (js "responseSchema")
           (member (js "generationConfig")
             (init_body (@fetch_init Ref.RefNum (js "German word: " ++ Haus)))))
       = JArr [str "germanWord"; str "englishTranslation"; str "details"].
Proof.
  apply (external_call_only_when_valid Ref.JSON_parse
           (world_replying 429 (js "quota exceeded")) (request Haus)
           (apiUrl key) (fetch_init (js "German word: " ++ Haus))).
  assert (H : exists resp tail,
            handle Ref.JSON_parse (world_replying 429 (js "quota exceeded"))
              (request Haus)
            = (Normal resp, trace_to_api Haus key ++ tail)).
  { eexists _, _. apply handle_normal.
    rewrite (translate_try_reaches_api Ref.JSON_parse _ _ Haus key
               {| api_status := 429; api_text := js "quota exceeded" |});
      [reflexivity | holds | holds | reflexivity]. }
  destruct H as [resp [tail ->]].
  apply in_or_app. left. unfold trace_to_api. right. right. left. reflexivity.
Defined.

Lemma null_word_rejected :
  fst (handle Ref.JSON_parse (world_replying 200 []) (request_with JNull))
  = Normal (answer 400 (error_body "germanWord is required")).
Proof.
  apply (proj2 (validation_answer_iff Ref.JSON_parse (world_replying 200 [])
                  (request_with JNull) JNull eq_refl)).
  left. reflexivity.
Defined.

Lemma unreachable_service_internal_error :
  handle Ref.JSON_parse world_unreachable (request Haus)
  = (Normal (answer 500 (error_body "Internal server error")),
     trace_to_api Haus key ++ [EvError [LVal (str "Server error:"); LErr FetchError]]).
Proof.
  apply (network_failure_internal_error Ref.JSON_parse _ _ Haus key); holds.
Defined.

Lemma html_reply_internal_error :
  handle Ref.JSON_parse (world_replying 200 (js "<html>")) (request Haus)
  = (Normal (answer 500 (error_body "Internal server error")),
     trace_to_api Haus key ++ [EvError [LVal (str "Server error:"); LErr FetchError]]).
Proof.
  apply (non_json_reply_internal_error Ref.JSON_parse _ _ Haus key
           {| api_status := 200; api_text := js "<html>" |}); holds.
Defined.

Lemma null_body_internal_error :
  handle Ref.JSON_parse (world_replying 200 (js "null")) (request Haus)
  = (Normal (answer 500 (error_body "Internal server error")),
     trace_to_api Haus key ++ [EvError [LVal (str "Server error:"); LErr TypeError]]).
Proof.
  apply (null_reply_internal_error Ref.JSON_parse _ _ Haus key
           {| api_status := 200; api_text := js "null" |} JNull); holds.
Defined.

Lemma odd_word_internal_error :
  handle Ref.JSON_parse (world_replying 200 (reply_text odd_word_text)) (request Haus)
  = (Normal (answer 500 (error_body "Internal server error")),
     trace_to_api Haus key ++ [EvError [LVal (str "Server error:"); LErr TypeError]]).
Proof.
  apply (unprintable_fields_internal_error Ref.JSON_parse _ _ Haus key
           {| api_status := 200; api_text := reply_text odd_word_text |}
           (reply_value odd_word_text) odd_word_text odd_word_value);
    try (right; left); holds.
Defined.

Lemma empty_array_text_is_raw :
  fst (handle Ref.JSON_parse (world_replying 200 (reply_with (js "[]"))) (request Haus))
  = Normal (answer 500 (JObj [
      (js "error", str "Failed to parse JSON from Gemini");
      (js "raw", generated_text (reply_value_with (JArr [])))])).
Proof.
  apply (raw_is_the_text_value Ref.JSON_parse _ _ Haus key
           {| api_status := 200; api_text := reply_with (js "[]") |}
           (reply_value_with (JArr [])));
    [holds | holds | holds | holds | holds | holds |].
  right. exists []. holds.
Defined.

Lemma undefined_body_internal_error :
  fst (handle Ref.JSON_parse (world_replying 200 []) JUndefined)
    = Normal (answer 500 (error_body "Internal server error"))
  /\ fetch_calls (snd (handle Ref.JSON_parse (world_replying 200 []) JUndefined)) = [].
Proof.
  apply (unreadable_body_internal_error Ref.JSON_parse).
  reflexivity.
Defined.

Lemma das_Haus_needs_one_call :
  exists word key0,
    valid_request (request Haus) word
    /\ configured
         (world_replying 200 (reply_text (translation_text das_Haus the_house die_Haeuser)))
         key0
    /\ fetch_calls
         (snd (handle Ref.JSON_parse
                 (world_replying 200
                    (reply_text (translation_text das_Haus the_house die_Haeuser)))
                 (request Haus)))
       = [EvFetch (apiUrl key0) (fetch_init (js "German word: " ++ word))].
Proof.
  apply (success_needs_one_call Ref.JSON_parse _ _
           (answer 200 (JObj [
              (js "german", JStr (fullGerman_of das_Haus die_Haeuser));
              (js "english", JStr the_house);
              (js "raw", JObj (translation_props das_Haus the_house die_Haeuser))]))).
  - vm_compute. reflexivity.
  - reflexivity.
Defined.

End PathRuns.
